(** * DTS / Bluetooth Sync Helper: a shallow embedding of [dts_bt_sync_tool.py]

    The program is a single Tk window ([SyncApp]) whose logic is: a
    frames-to-milliseconds conversion, a four-branch decision that orders a
    flash and a beep, a 3-2-1 countdown built from chained [root.after]
    callbacks, and a repeat loop built from [threading.Timer].

    Modelling conventions.
    - Python floats ([tk.DoubleVar] values, the results of [/] and [*]) are
      exact rationals [Q]; binary64 rounding error is outside the model.
      Python ints ([tk.IntVar] values, milliseconds) are [Z].
    - The object [self] is the record [App].  Methods are computations in
      the monad [M]: they read and write the [App] and either return or
      raise, and the state written before a raise is kept, as in Python.
    - The collaborators the program talks to (the Tk canvas, the message
      box, the audio backend, the two timer facilities) are modelled by
      what the program asks of them: every request is appended to [trace]
      with the time of the request, and every timer that was started is an
      entry of [pending].  Whether the audio backend or the message box
      fails is decided by the oracles of [World].
    - Time is a millisecond counter.  [fire_next] is the event loop: it
      takes the pending timer that is due first, moves the clock to its due
      time and runs its callback to completion.  Callbacks therefore run one
      at a time and take no time; latency of the audio device and the races
      between the Tk thread and timer threads are outside the model.
    - Text that is only displayed (the two info labels with their
      formatted numbers) is not part of the state. *)

From Stdlib Require Import ZArith QArith Qround Qabs Lqa Bool String List Lia.
From Stdlib Require Import Permutation PrimFloat.
From Stdlib Require Import DecimalString.
Import ListNotations.

Local Open Scope Z_scope.

(** ** Python numerics *)

(** [max(a, b)] on floats: Python keeps the first argument unless the second
    is strictly greater. *)
Definition py_max (a b : Q) : Q :=
  match (a ?= b)%Q with
  | Lt => b
  | _ => a
  end.

(** [round(x)] with one argument: the nearest integer, ties to the even
    one.  The result is an [int], so the [int(...)] around it in the source
    is the identity. *)
Definition py_round (x : Q) : Z :=
  let f := Qfloor x in
  match ((x - inject_Z f) ?= (1 # 2))%Q with
  | Lt => f
  | Gt => f + 1
  | Eq => if Z.even f then f else f + 1
  end.

(** [f"{n}"] for an int. *)
Definition str_of_int (n : Z) : string := NilZero.string_of_int (Z.to_int n).

(** ** Exceptions and outcomes *)

Inductive exn : Type :=
| ZeroDivisionError
| ValueError
| RuntimeError.

Inductive outcome (A : Type) : Type :=
| Return (a : A)
| Raise (e : exn).

Arguments Return {A} a.
Arguments Raise {A} e.

(** ** Timers and callbacks *)

(** The bound methods and closures that the program hands to a timer.
    [CbShowStep step i] is the closure [lambda: show_step(i+1)] of
    [_run_with_countdown], which captures [step]. *)
Inductive Callback : Type :=
| CbFlashOn
| CbFlashOff
| CbDoBeep
| CbShowStep (step : Z) (i : nat)
| CbRepeatTick.

(** [root.after] runs the callback on the Tk loop, [threading.Timer] on a
    thread of its own. *)
Inductive TimerKind : Type :=
| TkAfter
| ThreadTimer.

Record Timer : Type := mkTimer {
  t_id : nat;
  t_kind : TimerKind;
  t_due : Z;
  t_cb : Callback
}.

(** ** What the program asks of its collaborators *)

Inductive Effect : Type :=
| ESetBg (color : string)            (* flash.configure(bg=color) *)
| ESetCenter (text : string)         (* flash.itemconfig(center_id, text=text) *)
| ESetNextLabel (text : string)      (* next_label.config(text=text) *)
| EBeep (freq dur : Z) (vol : Q)     (* play_beep(freq, dur, vol) entered *)
| EAudio (played : bool)             (* the backend was asked to play; did it *)
| EWarning                           (* messagebox.showwarning(...) *)
| ECallback (cb : Callback)          (* the event loop dispatched a timer *)
| EUncaught (e : exn).               (* a callback ended by raising *)

(** ** The application state *)

(** The Tk variables of [SyncApp.__init__]. *)
Record Vars : Type := mkVars {
  fps_var : Q;
  base_frames_var : Q;
  rounded_frames_var : Z;
  audio_delay_frames_var : Q;
  delay_target_var : string;
  tone_freq_var : Z;
  tone_ms_var : Z;
  flash_ms_var : Z;
  repeat_var : bool;
  repeat_interval_ms_var : Z;
  countdown_var : bool;
  countdown_step_ms_var : Z;
  countdown_beeps_var : bool
}.

(** The module-level backend flags and the behaviour of the outside world.
    [audio_fails n] tells whether the backend fails to play when it is asked
    at a moment where [n] requests have been logged ([winsound.Beep] raising
    inside its thread, [sa.play_buffer] raising); [showwarning_raises n]
    likewise for the message box. *)
Record World : Type := mkWorld {
  USE_WINSOUND : bool;
  SIMPLEAUDIO_AVAILABLE : bool;
  audio_fails : nat -> bool;
  showwarning_raises : nat -> bool
}.

Record App : Type := mkApp {
  world : World;
  vars : Vars;
  flash_bg : string;
  center_text : string;
  next_label : string;
  _repeat_timer : option nat;
  _running_repeat : bool;
  now : Z;
  next_id : nat;
  pending : list Timer;
  trace : list (Z * Effect)
}.

Definition flash_bg_normal : string := "#111111".
Definition flash_bg_active : string := "#33cc33".

Definition set_vars (v : Vars) (s : App) : App :=
  mkApp (world s) v (flash_bg s) (center_text s) (next_label s)
        (_repeat_timer s) (_running_repeat s) (now s) (next_id s)
        (pending s) (trace s).

Definition set_flash_bg (c : string) (s : App) : App :=
  mkApp (world s) (vars s) c (center_text s) (next_label s)
        (_repeat_timer s) (_running_repeat s) (now s) (next_id s)
        (pending s) (trace s).

Definition set_center_text (t : string) (s : App) : App :=
  mkApp (world s) (vars s) (flash_bg s) t (next_label s)
        (_repeat_timer s) (_running_repeat s) (now s) (next_id s)
        (pending s) (trace s).

Definition set_next_label (t : string) (s : App) : App :=
  mkApp (world s) (vars s) (flash_bg s) (center_text s) t
        (_repeat_timer s) (_running_repeat s) (now s) (next_id s)
        (pending s) (trace s).

Definition set_repeat_timer (t : option nat) (s : App) : App :=
  mkApp (world s) (vars s) (flash_bg s) (center_text s) (next_label s)
        t (_running_repeat s) (now s) (next_id s)
        (pending s) (trace s).

Definition set_running_repeat (b : bool) (s : App) : App :=
  mkApp (world s) (vars s) (flash_bg s) (center_text s) (next_label s)
        (_repeat_timer s) b (now s) (next_id s)
        (pending s) (trace s).

Definition set_now (t : Z) (s : App) : App :=
  mkApp (world s) (vars s) (flash_bg s) (center_text s) (next_label s)
        (_repeat_timer s) (_running_repeat s) t (next_id s)
        (pending s) (trace s).

Definition set_pending (n : nat) (p : list Timer) (s : App) : App :=
  mkApp (world s) (vars s) (flash_bg s) (center_text s) (next_label s)
        (_repeat_timer s) (_running_repeat s) (now s) n
        p (trace s).

Definition set_trace (tr : list (Z * Effect)) (s : App) : App :=
  mkApp (world s) (vars s) (flash_bg s) (center_text s) (next_label s)
        (_repeat_timer s) (_running_repeat s) (now s) (next_id s)
        (pending s) tr.


(** ** The monad of methods *)

Definition M (A : Type) : Type := App -> outcome A * App.

Definition ret {A} (a : A) : M A := fun s => (Return a, s).

Definition raise {A} (e : exn) : M A := fun s => (Raise e, s).

Definition bind {A B} (m : M A) (k : A -> M B) : M B :=
  fun s =>
    match m s with
    | (Return a, s1) => k a s1
    | (Raise e, s1) => (Raise e, s1)
    end.

Definition gets {A} (f : App -> A) : M A := fun s => (Return (f s), s).

Definition modify (f : App -> App) : M unit := fun s => (Return tt, f s).

(** [try: m  except Exception: h] *)
Definition try_except {A} (m : M A) (h : M A) : M A :=
  fun s =>
    match m s with
    | (Return a, s1) => (Return a, s1)
    | (Raise _, s1) => h s1
    end.

(** [try: m  finally: fin]: [fin] always runs; the outcome of [m] stands
    unless [fin] itself raises. *)
Definition try_finally {A} (m : M A) (fin : M unit) : M A :=
  fun s =>
    match m s with
    | (r, s1) =>
        match fin s1 with
        | (Return _, s2) => (r, s2)
        | (Raise e, s2) => (Raise e, s2)
        end
    end.

Declare Scope py_scope.
Delimit Scope py_scope with py.
Notation "x <- m ;; k" := (bind m (fun x => k))
  (at level 61, m at next level, right associativity) : py_scope.
Notation "m ;; k" := (bind m (fun _ => k))
  (at level 61, right associativity) : py_scope.
Local Open Scope py_scope.

Definition log (e : Effect) : M unit :=
  modify (fun s => set_trace (trace s ++ [(now s, e)]) s).

(** ** Collaborators *)

(** [flash.configure(bg=c)] and [flash.itemconfig(center_id, text=t)]. *)
Definition configure_bg (c : string) : M unit :=
  modify (set_flash_bg c) ;; log (ESetBg c).

Definition itemconfig_center (t : string) : M unit :=
  modify (set_center_text t) ;; log (ESetCenter t).

Definition next_label_config (t : string) : M unit :=
  modify (set_next_label t) ;; log (ESetNextLabel t).

(** Starting a timer of either kind: a fresh id, due [ms] from now (a
    negative delay fires at once). *)
Definition start_timer (k : TimerKind) (ms : Z) (cb : Callback) : M nat :=
  fun s =>
    let id := next_id s in
    (Return id,
     set_pending (S id)
       (pending s ++ [mkTimer id k (now s + Z.max 0 ms) cb]) s).

(** [root.after(ms, cb)] *)
Definition root_after (ms : Z) (cb : Callback) : M nat :=
  start_timer TkAfter ms cb.

(** [threading.Timer(ms/1000.0, cb).start()] *)
Definition Timer_start (ms : Z) (cb : Callback) : M nat :=
  start_timer ThreadTimer ms cb.

(** [timer.cancel()]: a timer that is still waiting never fires; one that
    has fired is left alone. *)
Definition Timer_cancel (id : nat) : M unit :=
  modify (fun s =>
    set_pending (next_id s)
      (filter (fun t => negb (Nat.eqb (t_id t) id)) (pending s)) s).

(** [messagebox.showwarning(...)] *)
Definition showwarning : M unit :=
  fun s =>
    let n := List.length (trace s) in
    match log EWarning s with
    | (_, s1) =>
        if showwarning_raises (world s) n then (Raise RuntimeError, s1)
        else (Return tt, s1)
    end.

(** The backend call itself ([winsound.Beep] or [sa.play_buffer]). *)
Definition backend_play : M unit :=
  fun s =>
    let bad := audio_fails (world s) (List.length (trace s)) in
    match log (EAudio (negb bad)) s with
    | (_, s1) => if bad then (Raise RuntimeError, s1) else (Return tt, s1)
    end.

(** ** [play_beep] (module level) *)

(** With [winsound] the tone is played by a daemon thread: whatever
    [winsound.Beep] does there, [play_beep] has already answered [True].
    With [simpleaudio] the tone is synthesised first, outside the [try]
    ([np.linspace] refuses a negative number of samples, which for an
    integer duration means a negative duration), and only
    [sa.play_buffer] is guarded. *)
Definition play_beep (freq duration_ms : Z) (volume : Q) : M bool :=
  log (EBeep freq duration_ms volume) ;;
  w <- gets world ;;
  if USE_WINSOUND w then
    try_except backend_play (ret tt) ;;
    ret true
  else if SIMPLEAUDIO_AVAILABLE w then
    (if duration_ms <? 0 then raise ValueError else ret tt) ;;
    try_except (backend_play ;; ret true) (ret false)
  else
    ret false.

(** ** Methods of [SyncApp] *)

Definition py_div (n d : Q) : M Q :=
  if Qeq_bool d 0 then raise ZeroDivisionError else ret (n / d)%Q.

(** The local [fps] of [frames_to_ms]. *)
Definition clamped_fps (s : App) : Q := py_max (fps_var (vars s)) (1 # 1000000).

Definition frames_to_ms (frames : Q) : M Q :=
  fps <- gets clamped_fps ;;
  q <- py_div frames fps ;;
  ret (1000 * q)%Q.






Definition _flash_off : M unit :=
  configure_bg flash_bg_normal ;;
  itemconfig_center "".

Definition _flash_on : M unit :=
  configure_bg flash_bg_active ;;
  itemconfig_center "FLASH" ;;
  ms <- gets (fun s => flash_ms_var (vars s)) ;;
  _ <- root_after ms CbFlashOff ;;
  ret tt.

Definition _do_beep (freq dur : option Z) (vol : Q) : M unit :=
  freq <- match freq with
          | None => f <- gets (fun s => tone_freq_var (vars s)) ;; ret (Z.max 50 f)
          | Some f => ret f
          end ;;
  dur <- match dur with
         | None => d <- gets (fun s => tone_ms_var (vars s)) ;; ret (Z.max 20 d)
         | Some d => ret d
         end ;;
  ok <- play_beep freq dur vol ;;
  if negb ok then try_except showwarning (ret tt) else ret tt.

(** The default [vol=0.2] of [_do_beep]. *)
Definition default_vol : Q := 2 # 10.

Definition _perform_test_events : M unit :=
  frames <- gets (fun s => audio_delay_frames_var (vars s)) ;;
  ms <- frames_to_ms (Qabs frames) ;;
  let delay_ms := py_round ms in
  target <- gets (fun s => delay_target_var (vars s)) ;;
  if String.eqb target "Audio" then
    if Qle_bool 0 frames then
      _flash_on ;;
      if 0 <? delay_ms
      then _ <- Timer_start delay_ms CbDoBeep ;; ret tt
      else _do_beep None None default_vol
    else
      _do_beep None None default_vol ;;
      _ <- root_after (Z.abs delay_ms) CbFlashOn ;;
      ret tt
  else
    if Qle_bool 0 frames then
      _do_beep None None default_vol ;;
      if 0 <? delay_ms
      then _ <- root_after delay_ms CbFlashOn ;; ret tt
      else _flash_on
    else
      _flash_on ;;
      if 0 <? delay_ms
      then _ <- Timer_start delay_ms CbDoBeep ;; ret tt
      else _do_beep None None default_vol.

(** The locals [seq] and [freqs] of [_run_with_countdown]. *)
Definition countdown_seq : list string := ["3"; "2"; "1"]%string.
Definition countdown_freqs : list Z := [600; 700; 800].

(** The inner function [show_step] with the captured [step]. *)
Definition show_step (step : Z) (i : nat) : M unit :=
  if (List.length countdown_seq <=? i)%nat then
    itemconfig_center "" ;;
    _perform_test_events
  else
    configure_bg flash_bg_normal ;;
    itemconfig_center (nth i countdown_seq ""%string) ;;
    beeps <- gets (fun s => countdown_beeps_var (vars s)) ;;
    (if beeps : bool
     then _do_beep (Some (nth i countdown_freqs 0)) (Some 90) (15 # 100)
     else ret tt) ;;
    _ <- root_after step (CbShowStep step (i + 1)) ;;
    ret tt.

Definition _run_with_countdown : M unit :=
  step0 <- gets (fun s => countdown_step_ms_var (vars s)) ;;
  let step := Z.max 200 step0 in
  show_step step 0.

Definition run_test : M unit :=
  cd <- gets (fun s => countdown_var (vars s)) ;;
  if cd : bool then _run_with_countdown else _perform_test_events.

Definition _schedule_next_repeat : M unit :=
  running <- gets _running_repeat ;;
  if negb running then ret tt
  else
    iv <- gets (fun s => repeat_interval_ms_var (vars s)) ;;
    let interval := Z.max 200 iv in
    next_label_config ("Next in " ++ str_of_int interval ++ " ms") ;;
    id <- Timer_start interval CbRepeatTick ;;
    modify (set_repeat_timer (Some id)).

Definition _toggle_repeat : M unit :=
  rv <- gets (fun s => repeat_var (vars s)) ;;
  if rv : bool then
    modify (set_running_repeat true) ;;
    _schedule_next_repeat
  else
    modify (set_running_repeat false) ;;
    t <- gets _repeat_timer ;;
    match t with
    | Some id => Timer_cancel id ;; modify (set_repeat_timer None)
    | None => ret tt
    end ;;
    next_label_config "".

Definition _repeat_tick : M unit :=
  running <- gets _running_repeat ;;
  if negb running then ret tt
  else try_finally run_test _schedule_next_repeat.

(** ** The event loop *)

Definition run_callback (cb : Callback) : M unit :=
  match cb with
  | CbFlashOn => _flash_on
  | CbFlashOff => _flash_off
  | CbDoBeep => _do_beep None None default_vol
  | CbShowStep step i => show_step step i
  | CbRepeatTick => _repeat_tick
  end.

(** The pending timer that is due first (among equals, the one started
    first), and the timers that stay pending. *)
Fixpoint pick_earliest (ts : list Timer) : option (Timer * list Timer) :=
  match ts with
  | [] => None
  | t :: rest =>
      match pick_earliest rest with
      | None => Some (t, [])
      | Some (u, rest') =>
          if t_due t <=? t_due u then Some (t, rest) else Some (u, t :: rest')
      end
  end.

(** One turn of the loop.  A callback that raises is reported and the
    loop goes on ([Tk.report_callback_exception], the thread's excepthook). *)
Definition fire_next (s : App) : option App :=
  match pick_earliest (pending s) with
  | None => None
  | Some (t, rest) =>
      let s1 := set_now (Z.max (now s) (t_due t)) (set_pending (next_id s) rest s) in
      match (log (ECallback (t_cb t)) ;; run_callback (t_cb t)) s1 with
      | (Return _, s2) => Some s2
      | (Raise e, s2) => Some (snd (log (EUncaught e) s2))
      end
  end.

Fixpoint run_loop (fuel : nat) (s : App) : App :=
  match fuel with
  | O => s
  | S n =>
      match fire_next s with
      | None => s
      | Some s' => run_loop n s'
      end
  end.

(** ** Reading a trace *)

Inductive TestEvent : Type := Flash | Beep.

(** The flash is the canvas turning to the active colour; the beep is a
    call of [play_beep]. *)
Definition test_event_of (e : Effect) : option TestEvent :=
  match e with
  | ESetBg c => if String.eqb c flash_bg_active then Some Flash else None
  | EBeep _ _ _ => Some Beep
  | _ => None
  end.

Fixpoint timed_test_events (tr : list (Z * Effect)) : list (Z * TestEvent) :=
  match tr with
  | [] => []
  | (t, e) :: rest =>
      match test_event_of e with
      | Some ev => (t, ev) :: timed_test_events rest
      | None => timed_test_events rest
      end
  end.

Definition test_events (tr : list (Z * Effect)) : list TestEvent :=
  map snd (timed_test_events tr).

(** The texts written to the big centre label, with their times. *)
Fixpoint center_updates (tr : list (Z * Effect)) : list (Z * string) :=
  match tr with
  | [] => []
  | (t, ESetCenter txt) :: rest => (t, txt) :: center_updates rest
  | _ :: rest => center_updates rest
  end.

(** The tones requested, with their times. *)
Fixpoint tones (tr : list (Z * Effect)) : list (Z * (Z * Z * Q)) :=
  match tr with
  | [] => []
  | (t, EBeep f d v) :: rest => (t, (f, d, v)) :: tones rest
  | _ :: rest => tones rest
  end.

(** What a run added to the trace it started from. *)
Definition new_trace (s0 s1 : App) : list (Z * Effect) :=
  skipn (List.length (trace s0)) (trace s1).

(** ** A start state *)


Definition quiet_world (winsound simpleaudio : bool) : World :=
  mkWorld winsound simpleaudio (fun _ => false) (fun _ => false).

Definition init_app (w : World) (v : Vars) : App :=
  mkApp w v flash_bg_normal "Ready" "" None false 0 0 [] [].

(** The defaults of [__init__] with the three settings a test depends on. *)
Definition test_vars (fps frames : Q) (target : string) : Vars :=
  mkVars fps (2025 # 100) 21 frames target 1000 150 150
         false 1000 false 700 true.

Definition idle_app (fps frames : Q) (target : string) : App :=
  init_app (quiet_world false true) (test_vars fps frames target).


Definition delay_frames (s : App) : Q := audio_delay_frames_var (vars s).

(** ** Describing what a call did *)

(** Appending requests to the trace at the current time. *)
Definition log_all (es : list Effect) (s : App) : App :=
  set_trace (trace s ++ map (pair (now s)) es) s.

(** What one call of [_do_beep] with tone [f], [d], [v] appends to a trace
    that holds [n] requests, in world [w]. *)
Definition beep_log (w : World) (n : nat) (f d : Z) (v : Q) : list Effect :=
  EBeep f d v ::
  if USE_WINSOUND w then [EAudio (negb (audio_fails w (n + 1)%nat))]
  else if SIMPLEAUDIO_AVAILABLE w then
    if audio_fails w (n + 1)%nat then [EAudio false; EWarning] else [EAudio true]
  else [EWarning].

(** The tone [_do_beep] plays when it is called without arguments. *)
Definition default_freq (v : Vars) : Z := Z.max 50 (tone_freq_var v).
Definition default_dur (v : Vars) : Z := Z.max 20 (tone_ms_var v).




(** The timers started since [s0]. *)
Definition new_timers (s0 s1 : App) : list Timer :=
  skipn (List.length (pending s0)) (pending s1).

(** The state in which [_perform_test_events] leaves the application. *)
Definition after_test (s : App) : App := snd (_perform_test_events s).

(** The user retunes the three settings a test depends on (the fps box,
    the delay slider, the target box). *)
Definition set_test_settings (fps frames : Q) (target : string) (s : App) : App :=
  set_vars
    (mkVars fps (base_frames_var (vars s)) (rounded_frames_var (vars s)) frames
            target (tone_freq_var (vars s)) (tone_ms_var (vars s))
            (flash_ms_var (vars s)) (repeat_var (vars s))
            (repeat_interval_ms_var (vars s)) (countdown_var (vars s))
            (countdown_step_ms_var (vars s)) (countdown_beeps_var (vars s)))
    s.

(** The defaults of [__init__] with the countdown switched on. *)
Definition countdown_app (step : Z) (beeps : bool) : App :=
  init_app (quiet_world false true)
    (mkVars 24 (2025 # 100) 21 12 "Audio" 1000 150 150 false 1000 true step beeps).

(** Repeat ticks among callbacks, timers and logged dispatches. *)
Definition is_tick (cb : Callback) : bool :=
  match cb with
  | CbRepeatTick => true
  | _ => false
  end.

Definition tick_event (e : Effect) : bool :=
  match e with
  | ECallback CbRepeatTick => true
  | _ => false
  end.

Definition no_ticks (ts : list Timer) : Prop :=
  forallb (fun t => negb (is_tick (t_cb t))) ts = true.

Definition no_tick_events (es : list (Z * Effect)) : Prop :=
  forallb (fun e => negb (tick_event (snd e))) es = true.

(** Every repeat tick that is pending is the one [_repeat_timer] refers to. *)
Definition ticks_tracked (s : App) : Prop :=
  forall t, In t (pending s) -> t_cb t = CbRepeatTick ->
            _repeat_timer s = Some (t_id t).

(** A step that leaves the repeat machinery alone: the settings and the
    two repeat fields are kept, the timers it starts are not repeat ticks
    and get the next free ids, and no repeat tick is dispatched. *)
Definition quiet_step (s s' : App) : Prop :=
  vars s' = vars s /\
  _running_repeat s' = _running_repeat s /\
  _repeat_timer s' = _repeat_timer s /\
  (exists ts,
     pending s' = pending s ++ ts /\
     no_ticks ts /\
     map t_id ts = seq (next_id s) (List.length ts) /\
     next_id s' = (List.length ts + next_id s)%nat) /\
  (exists es, trace s' = trace s ++ es /\ no_tick_events es).

(** The user ticks or unticks the "Repeat test" box: Tk flips the
    variable, then runs the box's [command]. *)
Definition flip_repeat_var (v : Vars) : Vars :=
  mkVars (fps_var v) (base_frames_var v) (rounded_frames_var v)
         (audio_delay_frames_var v) (delay_target_var v) (tone_freq_var v)
         (tone_ms_var v) (flash_ms_var v) (negb (repeat_var v))
         (repeat_interval_ms_var v) (countdown_var v)
         (countdown_step_ms_var v) (countdown_beeps_var v).

Definition click_repeat : M unit :=
  modify (fun s => set_vars (flip_repeat_var (vars s)) s) ;;
  _toggle_repeat.

(** What the repeat machinery maintains: the flag mirrors the box, timer
    ids are distinct and below the next free id, and a pending repeat
    tick is the tracked one, pending only while the flag is on. *)
Definition repeat_inv (s : App) : Prop :=
  _running_repeat s = repeat_var (vars s) /\
  NoDup (map t_id (pending s)) /\
  (forall t, In t (pending s) -> (t_id t < next_id s)%nat) /\
  (forall t, In t (pending s) -> t_cb t = CbRepeatTick ->
             _repeat_timer s = Some (t_id t) /\ _running_repeat s = true).

(** What can happen to the application: a turn of the event loop, the
    Test button or the space key, a click on the Repeat box, or an edit of
    any Tk variable other than the Repeat box's. *)
Inductive app_step : App -> App -> Prop :=
| step_loop (s s' : App) :
    fire_next s = Some s' -> app_step s s'
| step_test (s s' : App) :
    run_test s = (Return tt, s') -> app_step s s'
| step_repeat_box (s s' : App) :
    click_repeat s = (Return tt, s') -> app_step s s'
| step_edit (v : Vars) (s : App) :
    repeat_var v = repeat_var (vars s) -> app_step s (set_vars v s).

Inductive reachable : App -> Prop :=
| reach_init (w : World) (v : Vars) :
    repeat_var v = false -> reachable (init_app w v)
| reach_step (s s' : App) :
    reachable s -> app_step s s' -> reachable s'.

(** The start state after a click that ticks the Repeat box. *)
Definition repeating_app : App := snd (click_repeat (idle_app 24 0 "Audio")).

(** The same with the box unticked again: Tk has flipped the variable,
    [_toggle_repeat] has not run yet. *)
Definition unticked_app : App :=
  set_vars (flip_repeat_var (vars repeating_app)) repeating_app.

(** ** The conversion on binary64 floats

    [frames_to_ms] again, this time on the floats Python computes with.
    It serves to check, at the concrete inputs used below, that the exact
    rationals of the model and binary64 arithmetic give the same
    milliseconds. *)

Definition py_max_f64 (a b : float) : float :=
  if PrimFloat.ltb a b then b else a.

#[local] Set Warnings "-inexact-float".

Definition frames_to_ms_f64 (fps_var frames : float) : float :=
  let fps := py_max_f64 fps_var 1e-6%float in
  PrimFloat.mul 1000%float (PrimFloat.div frames fps).

(** ** More of the program *)



(** The number of repeat ticks among pending timers. *)
Definition count_ticks (ts : list Timer) : nat :=
  List.length (filter (fun t => is_tick (t_cb t)) ts).

(** The timers that are not repeat ticks. *)
Definition other_timers (ts : list Timer) : list Timer :=
  filter (fun t => negb (is_tick (t_cb t))) ts.

(** A step that takes no time: the clock, the world and the repeat label
    are kept, and the timers it starts are due now or later. *)
Definition timely_step (s s' : App) : Prop :=
  now s' = now s /\
  world s' = world s /\
  next_label s' = next_label s /\
  (exists ts, pending s' = pending s ++ ts /\
              Forall (fun t => now s <= t_due t) ts).

(** No pending timer is overdue. *)
Definition on_time (s : App) : Prop :=
  Forall (fun t => now s <= t_due t) (pending s).


(** The user edits the two countdown settings while a countdown runs. *)
Definition set_countdown_settings (step : Z) (beeps : bool) (s : App) : App :=
  set_vars
    (mkVars (fps_var (vars s)) (base_frames_var (vars s))
            (rounded_frames_var (vars s)) (audio_delay_frames_var (vars s))
            (delay_target_var (vars s)) (tone_freq_var (vars s))
            (tone_ms_var (vars s)) (flash_ms_var (vars s)) (repeat_var (vars s))
            (repeat_interval_ms_var (vars s)) (countdown_var (vars s))
            step beeps)
    s.

(** The cue tones of a countdown started at [t0] with step [step]. *)
Definition cue_tones (t0 step : Z) : list (Z * (Z * Z * Q)) :=
  [(t0, (600, 90, 15 # 100));
   (t0 + step, (700, 90, 15 # 100));
   (t0 + 2 * step, (800, 90, 15 # 100))].


(** The start state with the Repeat box just ticked: Tk has flipped the
    variable, [_toggle_repeat] has not run yet. *)
Definition ticked_app : App :=
  set_vars (flip_repeat_var (vars (idle_app 24 0 "Audio"))) (idle_app 24 0 "Audio").

(** A bound on the loop turns a pending callback can still cause: its own
    dispatch and those of the timers it goes on to start. *)
Definition cb_weight (cb : Callback) : nat :=
  match cb with
  | CbFlashOff => 1
  | CbDoBeep => 1
  | CbFlashOn => 2
  | CbShowStep _ i => 6 - Nat.min 3 i
  | CbRepeatTick => 1
  end.

Definition timers_weight (ts : list Timer) : nat :=
  list_sum (map (fun t => cb_weight (t_cb t)) ts).
(** * Properties *)

(** ** Numerics *)

Lemma py_max_floor (a b : Q) : (b <= py_max a b)%Q.
Proof.
  unfold py_max. destruct (a ?= b)%Q eqn:E.
  - apply Qeq_alt in E. rewrite E. apply Qle_refl.
  - apply Qle_refl.
  - apply Qgt_alt in E. apply Qlt_le_weak. exact E.
Qed.



Lemma clamped_fps_pos (s : App) : (0 < clamped_fps s)%Q.
Proof.
  unfold clamped_fps.
  pose proof (py_max_floor (fps_var (vars s)) (1 # 1000000)). lra.
Qed.

Lemma py_div_nonzero (n d : Q) (s : App) :
  ~ (d == 0)%Q -> py_div n d s = (Return (n / d)%Q, s).
Proof.
  intros H. unfold py_div.
  destruct (Qeq_bool d 0) eqn:E; [ | reflexivity ].
  apply Qeq_bool_eq in E. contradiction.
Qed.

Lemma py_div_zero (n d : Q) (s : App) :
  (d == 0)%Q -> py_div n d s = (Raise ZeroDivisionError, s).
Proof.
  intros H. unfold py_div. rewrite (Qeq_eq_bool _ _ H). reflexivity.
Qed.

Lemma frames_to_ms_eq (frames : Q) (s : App) :
  frames_to_ms frames s = (Return (1000 * (frames / clamped_fps s))%Q, s).
Proof.
  unfold frames_to_ms, bind, gets.
  rewrite py_div_nonzero; [ reflexivity | ].
  pose proof (clamped_fps_pos s). lra.
Qed.

(** C9.  [frames_to_ms] never divides by zero: whatever [fps_var] holds
    (zero and negative values included), the divisor it uses is at least
    [1e-6], the division of the model (which raises on a zero divisor, as
    Python's does) returns, and so does [frames_to_ms], leaving the state
    as it was. *)
Theorem frames_to_ms_never_divides_by_zero (s : App) (frames : Q) :
  (1 # 1000000 <= clamped_fps s)%Q /\
  ~ (clamped_fps s == 0)%Q /\
  py_div frames (clamped_fps s) s = (Return (frames / clamped_fps s)%Q, s) /\
  frames_to_ms frames s = (Return (1000 * (frames / clamped_fps s))%Q, s).
Proof.
  assert (Hfloor : (1 # 1000000 <= clamped_fps s)%Q)
    by (unfold clamped_fps; apply py_max_floor).
  assert (Hnz : ~ (clamped_fps s == 0)%Q) by (intros E; lra).
  repeat split.
  - exact Hfloor.
  - exact Hnz.
  - apply py_div_nonzero, Hnz.
  - apply frames_to_ms_eq.
Qed.




(** ** Changing the delay *)







(** ** The delay in milliseconds *)



(** ** Running the model symbolically *)

#[local] Arguments beep_log : simpl never.
#[local] Arguments _do_beep : simpl never.
#[local] Arguments frames_to_ms : simpl never.
#[local] Arguments _perform_test_events : simpl never.
#[local] Arguments default_freq : simpl never.
#[local] Arguments default_dur : simpl never.
#[local] Arguments py_round : simpl never.
#[local] Arguments Z.add : simpl never.
#[local] Arguments Z.mul : simpl never.
#[local] Arguments Z.max : simpl never.
#[local] Arguments Z.leb : simpl never.
#[local] Arguments Z.ltb : simpl never.
#[local] Arguments Z.abs : simpl never.

Ltac break_if :=
  match goal with
  | |- context [if ?b then _ else _] =>
      lazymatch b with
      | context [if _ then _ else _] => fail
      | _ => destruct b eqn:?
      end
  end.


Lemma skipn_prefix {A} (l r : list A) : skipn (List.length l) (l ++ r) = r.
Proof. induction l; simpl; auto. Qed.

(** ** [_do_beep] *)

Lemma do_beep_eq (f d : Z) (v : Q) (s : App) :
  0 <= d ->
  _do_beep (Some f) (Some d) v s =
  (Return tt, log_all (beep_log (world s) (List.length (trace s)) f d v) s).
Proof.
  intros Hd. apply Z.ltb_ge in Hd.
  unfold _do_beep, play_beep, backend_play, showwarning, try_except, log_all,
    beep_log, bind, ret, raise, gets, modify, log.
  cbn. destruct (USE_WINSOUND (world s)), (SIMPLEAUDIO_AVAILABLE (world s));
    cbn; rewrite ?Hd; cbn; rewrite ?length_app; cbn;
    repeat (break_if; cbn);
    rewrite <- ?app_assoc; reflexivity.
Qed.

Lemma do_beep_default_eq (v : Q) (s : App) :
  _do_beep None None v s =
  (Return tt,
   log_all (beep_log (world s) (List.length (trace s))
                     (default_freq (vars s)) (default_dur (vars s)) v) s).
Proof.
  rewrite <- (do_beep_eq (default_freq (vars s)) (default_dur (vars s)) v s)
    by (unfold default_dur; lia).
  reflexivity.
Qed.

Ltac exec :=
  repeat (progress (
    lazy -[Z.add Z.mul Z.sub Z.opp Z.max Z.leb Z.ltb Z.abs app map List.length
           py_round beep_log _do_beep frames_to_ms default_freq default_dur
           clamped_fps Qabs Qle_bool str_of_int _perform_test_events
           after_test];
    cbn [app List.length];
    rewrite ?do_beep_default_eq, ?frames_to_ms_eq;
    rewrite ?do_beep_eq by lia)).

(** ** The flash/beep pair *)

Lemma timed_test_events_app (a b : list (Z * Effect)) :
  timed_test_events (a ++ b) = timed_test_events a ++ timed_test_events b.
Proof.
  induction a as [ | [t e] a IH ]; simpl; [ reflexivity | ].
  destruct (test_event_of e); simpl; rewrite IH; reflexivity.
Qed.

Lemma timed_test_events_beep (t : Z) (w : World) (n : nat) (f d : Z) (v : Q) :
  timed_test_events (map (pair t) (beep_log w n f d v)) = [(t, Beep)].
Proof.
  unfold beep_log. cbn.
  repeat (break_if; cbn); reflexivity.
Qed.



Lemma run_loop_fire (n : nat) (s s' : App) :
  fire_next s = Some s' -> run_loop (S n) s = run_loop n s'.
Proof. intros H. simpl. rewrite H. reflexivity. Qed.

Ltac fire :=
  erewrite (run_loop_fire _ (mkApp _ _ _ _ _ _ _ _ _ _ _));
  [ | unfold fire_next; cbn [pending pick_earliest t_due];
      repeat match goal with
             | H : ?c = _ |- context [if ?c then _ else _] => rewrite H
             end;
      exec; reflexivity ].









(** ** A zero delay *)

(** In three of the four branches a zero [delay_ms] makes the second event
    a plain call: both events are in the trace when
    [_perform_test_events] returns, and the only timer it has started is
    the one that ends the flash. *)
Lemma zero_delay_direct_call (s : App) :
  py_round (1000 * (Qabs (delay_frames s) / clamped_fps s)) = 0 ->
  String.eqb (delay_target_var (vars s)) "Audio" = false \/
  Qle_bool 0 (delay_frames s) = true ->
  exists s1,
    _perform_test_events s = (Return tt, s1) /\
    List.length (test_events (new_trace s s1)) = 2%nat /\
    map t_cb (new_timers s s1) = [CbFlashOff].
Proof.
  intros Hz Hbranch.
  unfold _perform_test_events. unfold bind at 1. unfold gets at 1.
  unfold bind at 1. rewrite frames_to_ms_eq. fold (delay_frames s).
  unfold bind at 1. unfold gets at 1. rewrite Hz, !Z.ltb_irrefl.
  unfold delay_frames in *. clear Hz.
  destruct s as [w [fps bf rf fr tg tf tm fm rv ri cv cs cb]
                   bg ct nl rt rr t0 nid pd tr].
  cbn [vars delay_target_var audio_delay_frames_var] in *.
  destruct (String.eqb tg "Audio"), (Qle_bool 0 fr);
    try (destruct Hbranch; discriminate);
    (eexists; split; [ exec; reflexivity | ]);
    unfold new_trace, new_timers, test_events; cbn [trace pending];
    rewrite <- ?app_assoc, !skipn_prefix;
    rewrite ?timed_test_events_app, ?timed_test_events_beep;
    split; reflexivity.
Qed.

(** C4, at the input where the code departs from it.  At 24 fps with
    target Audio and -0.01 frames, [delay_ms] is 0; when
    [_perform_test_events] returns only the beep has happened, and the
    flash waits in a [root.after(0, ...)] timer. *)
Theorem zero_delay_audio_negative_uses_timer :
  exists ms s1,
    frames_to_ms (Qabs (delay_frames (idle_app 24 (- (1 # 100)) "Audio")))
                 (idle_app 24 (- (1 # 100)) "Audio")
      = (Return ms, idle_app 24 (- (1 # 100)) "Audio") /\
    py_round ms = 0 /\
    _perform_test_events (idle_app 24 (- (1 # 100)) "Audio") = (Return tt, s1) /\
    test_events (new_trace (idle_app 24 (- (1 # 100)) "Audio") s1) = [Beep] /\
    new_timers (idle_app 24 (- (1 # 100)) "Audio") s1 = [mkTimer 0 TkAfter 0 CbFlashOn].
Proof.
  do 2 eexists.
  split; [ vm_compute; reflexivity | ].
  split; [ vm_compute; reflexivity | ].
  split; [ vm_compute; reflexivity | ].
  split; vm_compute; reflexivity.
Qed.

(** ** Failing audio *)


Ltac run_beep :=
  unfold play_beep, backend_play, showwarning, try_except, log,
    bind, ret, raise, gets, modify;
  cbn [world vars trace now fst snd set_trace].




Lemma play_beep_negative_duration (f d : Z) (v : Q) (s : App) :
  USE_WINSOUND (world s) = false ->
  SIMPLEAUDIO_AVAILABLE (world s) = true ->
  d < 0 ->
  play_beep f d v s = (Raise ValueError, log_all [EBeep f d v] s).
Proof.
  intros Hw Hs Hd. apply Z.ltb_lt in Hd.
  run_beep. rewrite Hw, Hs, Hd. reflexivity.
Qed.

(** Whatever the audio backend and the message box do, a test returns
    normally and its flash has been emitted or waits in a timer. *)
Lemma perform_test_events_flash (s : App) :
  exists s1,
    _perform_test_events s = (Return tt, s1) /\
    (In Flash (test_events (new_trace s s1)) \/
     In CbFlashOn (map t_cb (new_timers s s1))).
Proof.
  unfold _perform_test_events. unfold bind at 1. unfold gets at 1.
  unfold bind at 1. rewrite frames_to_ms_eq.
  unfold bind at 1. unfold gets at 1.
  set (d := py_round _). clearbody d.
  destruct s as [w [fps bf rf fr tg tf tm fm rv ri cv cs cb]
                   bg ct nl rt rr t0 nid pd tr].
  cbn [vars delay_target_var audio_delay_frames_var].
  destruct (String.eqb tg "Audio"), (Qle_bool 0 fr);
    try destruct (0 <? d);
    (eexists; split; [ exec; reflexivity | ]);
    unfold new_trace, new_timers, test_events; cbn [trace pending];
    rewrite <- ?app_assoc, !skipn_prefix;
    rewrite ?timed_test_events_app, ?timed_test_events_beep;
    cbn; auto.
Qed.




(** ** The countdown *)

Lemma perform_test_events_eq (s : App) :
  _perform_test_events s = (Return tt, after_test s).
Proof.
  destruct (perform_test_events_flash s) as [s1 [Hrun _]].
  unfold after_test. rewrite Hrun. reflexivity.
Qed.

Lemma center_updates_app (a b : list (Z * Effect)) :
  center_updates (a ++ b) = center_updates a ++ center_updates b.
Proof.
  induction a as [ | [t e] a IH ]; simpl; [ reflexivity | ].
  destruct e; simpl; rewrite IH; reflexivity.
Qed.

Lemma tones_app (a b : list (Z * Effect)) :
  tones (a ++ b) = tones a ++ tones b.
Proof.
  induction a as [ | [t e] a IH ]; simpl; [ reflexivity | ].
  destruct e; simpl; rewrite IH; reflexivity.
Qed.

Lemma center_updates_beep (t : Z) (w : World) (n : nat) (f d : Z) (v : Q) :
  center_updates (map (pair t) (beep_log w n f d v)) = [].
Proof.
  unfold beep_log. cbn. repeat (break_if; cbn); reflexivity.
Qed.

Lemma tones_beep (t : Z) (w : World) (n : nat) (f d : Z) (v : Q) :
  tones (map (pair t) (beep_log w n f d v)) = [(t, (f, d, v))].
Proof.
  unfold beep_log. cbn. repeat (break_if; cbn); reflexivity.
Qed.


Ltac fire_test :=
  erewrite (run_loop_fire _ (mkApp _ _ _ _ _ _ _ _ _ _ _));
  [ | unfold fire_next; cbn [pending pick_earliest t_due];
      exec; rewrite perform_test_events_eq; reflexivity ].

Ltac finish_list :=
  repeat match goal with
         | |- _ :: _ = _ :: _ => f_equal
         | |- (_, _) = (_, _) => f_equal
         end; try reflexivity; lia.





(** ** Settings changed during the countdown *)

Lemma run_loop_O (s : App) : run_loop 0 s = s.
Proof. reflexivity. Qed.

Ltac settle :=
  rewrite ?run_loop_O;
  unfold set_test_settings, set_vars;
  cbn [world vars flash_bg center_text next_label _repeat_timer
       _running_repeat now next_id pending trace
       fps_var base_frames_var rounded_frames_var audio_delay_frames_var
       delay_target_var tone_freq_var tone_ms_var flash_ms_var repeat_var
       repeat_interval_ms_var countdown_var countdown_step_ms_var
       countdown_beeps_var].




(** ** The repeat loop *)

Lemma no_tick_beep (t : Z) (w : World) (n : nat) (f d : Z) (v : Q) :
  forallb (fun e => negb (tick_event (snd e))) (map (pair t) (beep_log w n f d v)) = true.
Proof.
  unfold beep_log. cbn. repeat (break_if; cbn); reflexivity.
Qed.

Lemma quiet_step_refl (s : App) : quiet_step s s.
Proof.
  unfold quiet_step. repeat split.
  - exists []. rewrite app_nil_r. repeat split.
  - exists []. rewrite app_nil_r. repeat split.
Qed.

Lemma quiet_step_trans (a b c : App) :
  quiet_step a b -> quiet_step b c -> quiet_step a c.
Proof.
  intros (Hv1 & Hr1 & Ht1 & (ts1 & Hp1 & Hn1 & Hi1 & Hx1) & (es1 & He1 & Hne1))
         (Hv2 & Hr2 & Ht2 & (ts2 & Hp2 & Hn2 & Hi2 & Hx2) & (es2 & He2 & Hne2)).
  unfold quiet_step. repeat split; try congruence.
  - exists (ts1 ++ ts2). repeat split.
    + rewrite Hp2, Hp1, app_assoc. reflexivity.
    + unfold no_ticks in *. rewrite forallb_app, Hn1, Hn2. reflexivity.
    + rewrite map_app, length_app, seq_app, Hi1, Hi2, Hx1.
      rewrite (Nat.add_comm (next_id a)). reflexivity.
    + rewrite Hx2, Hx1, length_app. lia.
  - exists (es1 ++ es2). split.
    + rewrite He2, He1, app_assoc. reflexivity.
    + unfold no_tick_events in *. rewrite forallb_app, Hne1, Hne2. reflexivity.
Qed.

Ltac grown :=
  rewrite <- ?app_assoc;
  first [ eexists; split; [ reflexivity | ]
        | exists []; split; [ symmetry; apply app_nil_r | ] ].

Ltac solve_quiet :=
  unfold quiet_step;
  cbn [vars _running_repeat _repeat_timer pending trace next_id];
  split; [ reflexivity | ];
  split; [ reflexivity | ];
  split; [ reflexivity | ];
  split;
  [ grown; repeat split; reflexivity
  | grown; unfold no_tick_events;
    rewrite ?forallb_app, ?no_tick_beep; reflexivity ].

Lemma perform_test_events_quiet (s : App) : quiet_step s (after_test s).
Proof.
  enough (H : exists s', _perform_test_events s = (Return tt, s') /\ quiet_step s s').
  { destruct H as [s' [Hrun Hq]]. unfold after_test. rewrite Hrun. exact Hq. }
  unfold _perform_test_events.
  unfold bind at 1. unfold gets at 1.
  unfold bind at 1. rewrite frames_to_ms_eq.
  unfold bind at 1. unfold gets at 1.
  set (d := py_round _). clearbody d.
  destruct s as [w [fps bf rf fr tg tf tm fm rv ri cv cs cb]
                   bg ct nl rt rr t0 nid pd tr].
  cbn [vars delay_target_var audio_delay_frames_var].
  destruct (String.eqb tg "Audio"), (Qle_bool 0 fr);
    try destruct (0 <? d);
    (eexists; split; [ exec; reflexivity | solve_quiet ]).
Qed.

Ltac run_quiet :=
  eexists; split;
  [ exec; rewrite ?perform_test_events_eq; reflexivity
  | first [ solve_quiet
          | eapply quiet_step_trans;
            [ | apply perform_test_events_quiet ]; solve_quiet ] ].

Lemma show_step_quiet (step : Z) (i : nat) (s : App) :
  exists s', show_step step i s = (Return tt, s') /\ quiet_step s s'.
Proof.
  destruct s as [w [fps bf rf fr tg tf tm fm rv ri cv cs cb]
                   bg ct nl rt rr t0 nid pd tr].
  destruct i as [ | [ | [ | i ] ] ]; try destruct cb; run_quiet.
Qed.

Lemma callback_quiet (cb : Callback) (s : App) :
  is_tick cb = false ->
  exists s', run_callback cb s = (Return tt, s') /\ quiet_step s s'.
Proof.
  intros Hcb.
  destruct cb as [ | | | step i | ]; try discriminate Hcb; clear Hcb;
    try apply show_step_quiet;
    destruct s as [w [fps bf rf fr tg tf tm fm rv ri cv cs cb]
                     bg ct nl rt rr t0 nid pd tr];
    run_quiet.
Qed.

Lemma run_test_quiet (s : App) :
  exists s', run_test s = (Return tt, s') /\ quiet_step s s'.
Proof.
  unfold run_test, bind, gets.
  destruct (countdown_var (vars s)).
  - unfold _run_with_countdown, bind, gets. apply show_step_quiet.
  - exists (after_test s). split.
    + apply perform_test_events_eq.
    + apply perform_test_events_quiet.
Qed.

Lemma pick_earliest_In (ts : list Timer) (t : Timer) (rest : list Timer) :
  pick_earliest ts = Some (t, rest) ->
  In t ts /\ (forall u, In u rest -> In u ts).
Proof.
  revert t rest. induction ts as [ | a ts IH ]; intros t rest H; [ discriminate | ].
  simpl in H. destruct (pick_earliest ts) as [ [u rest'] | ] eqn:E.
  - destruct (IH u rest' eq_refl) as [Hu Hrest].
    destruct (t_due a <=? t_due u); injection H as <- <-.
    + split; [ left; reflexivity | intros v Hv; right; exact Hv ].
    + split; [ right; exact Hu | ].
      intros v [ <- | Hv ]; [ left; reflexivity | right; apply Hrest, Hv ].
  - injection H as <- <-. split; [ left; reflexivity | intros v [] ].
Qed.

Lemma no_ticks_In (ts : list Timer) :
  no_ticks ts <-> (forall t, In t ts -> is_tick (t_cb t) = false).
Proof.
  unfold no_ticks. rewrite forallb_forall. split; intros H t Ht.
  - apply negb_true_iff, H, Ht.
  - apply negb_true_iff, H, Ht.
Qed.

(** A turn of the loop taken while repeat is off and no tick is pending
    dispatches no tick and leaves things that way. *)
Lemma fire_next_quiet (s s' : App) :
  _running_repeat s = false ->
  no_ticks (pending s) ->
  fire_next s = Some s' ->
  _running_repeat s' = false /\
  no_ticks (pending s') /\
  exists es, trace s' = trace s ++ es /\ no_tick_events es.
Proof.
  intros Hr Hn Hfire. unfold fire_next in Hfire.
  destruct (pick_earliest (pending s)) as [ [t rest] | ] eqn:E; [ | discriminate ].
  destruct (pick_earliest_In _ _ _ E) as [Ht Hrest].
  assert (Hcb : is_tick (t_cb t) = false) by (apply (proj1 (no_ticks_In _) Hn), Ht).
  unfold bind, log, modify in Hfire.
  match type of Hfire with
  | context [run_callback _ ?x] =>
      destruct (callback_quiet (t_cb t) x Hcb) as [s2 [Hrun Hq]]
  end.
  rewrite Hrun in Hfire. injection Hfire as <-.
  destruct Hq as (_ & Hr2 & _ & (ts & Hp2 & Hn2 & _) & (es & He2 & Hne2)).
  cbn [_running_repeat pending trace now set_trace set_now set_pending] in *.
  split; [ congruence | ].
  split.
  - rewrite Hp2. unfold no_ticks in *. rewrite forallb_app, Hn2, andb_true_r.
    apply forallb_forall. intros u Hu. apply negb_true_iff.
    apply (proj1 (no_ticks_In _) Hn), Hrest, Hu.
  - eexists. split.
    + rewrite He2, <- app_assoc. reflexivity.
    + unfold no_tick_events in *. rewrite forallb_app, Hne2, andb_true_r.
      cbn. destruct (t_cb t); try reflexivity; discriminate Hcb.
Qed.

Lemma run_loop_quiet (n : nat) (s : App) :
  _running_repeat s = false ->
  no_ticks (pending s) ->
  _running_repeat (run_loop n s) = false /\
  no_ticks (pending (run_loop n s)) /\
  exists es, trace (run_loop n s) = trace s ++ es /\ no_tick_events es.
Proof.
  revert s. induction n as [ | n IH ]; intros s Hr Hn.
  - repeat split; try assumption. exists []. rewrite app_nil_r. split; reflexivity.
  - simpl. destruct (fire_next s) as [ s' | ] eqn:E.
    + destruct (fire_next_quiet s s' Hr Hn E) as (Hr' & Hn' & es & He & Hne).
      destruct (IH s' Hr' Hn') as (Hr2 & Hn2 & es2 & He2 & Hne2).
      repeat split; try assumption.
      exists (es ++ es2). split.
      * rewrite He2, He, app_assoc. reflexivity.
      * unfold no_tick_events in *. rewrite forallb_app, Hne, Hne2. reflexivity.
    + repeat split; try assumption. exists []. rewrite app_nil_r. split; reflexivity.
Qed.

(** Unticking the box. *)
Lemma toggle_repeat_off (s : App) :
  repeat_var (vars s) = false ->
  exists s1,
    _toggle_repeat s = (Return tt, s1) /\
    _running_repeat s1 = false /\
    _repeat_timer s1 = None /\
    next_label s1 = ""%string /\
    pending s1 =
      match _repeat_timer s with
      | Some id => filter (fun t => negb (Nat.eqb (t_id t) id)) (pending s)
      | None => pending s
      end /\
    trace s1 = trace s ++ [(now s, ESetNextLabel "")] /\
    vars s1 = vars s /\
    next_id s1 = next_id s.
Proof.
  intros Hrv.
  destruct s as [w [fps bf rf fr tg tf tm fm rv ri cv cs cb]
                   bg ct nl rt rr t0 nid pd tr].
  cbn in Hrv. subst rv.
  destruct rt as [ id | ]; (eexists; split; [ exec; reflexivity | ]);
    repeat split.
Qed.

Lemma repeat_tick_off (s : App) :
  _running_repeat s = false -> _repeat_tick s = (Return tt, s).
Proof.
  intros Hr. unfold _repeat_tick, bind, gets. rewrite Hr. reflexivity.
Qed.

Lemma ticks_tracked_cancelled (s : App) :
  ticks_tracked s ->
  no_ticks match _repeat_timer s with
           | Some id => filter (fun t => negb (Nat.eqb (t_id t) id)) (pending s)
           | None => pending s
           end.
Proof.
  intros Htr. apply no_ticks_In. intros t Ht.
  destruct (is_tick (t_cb t)) eqn:Hcb; [ exfalso | reflexivity ].
  assert (Hcb' : t_cb t = CbRepeatTick)
    by (destruct (t_cb t); try discriminate Hcb; reflexivity).
  destruct (_repeat_timer s) as [ id | ] eqn:Hrt.
  - apply filter_In in Ht. destruct Ht as [Ht Hne].
    specialize (Htr t Ht Hcb'). rewrite Hrt in Htr. injection Htr as ->.
    rewrite Nat.eqb_refl in Hne. discriminate Hne.
  - specialize (Htr t Ht Hcb'). rewrite Hrt in Htr. discriminate Htr.
Qed.


(** *** The tracked tick is the only tick, in every reachable state *)

Lemma pick_earliest_perm (ts : list Timer) (t : Timer) (rest : list Timer) :
  pick_earliest ts = Some (t, rest) -> Permutation ts (t :: rest).
Proof.
  revert t rest. induction ts as [ | a ts IH ]; intros t rest H; [ discriminate | ].
  simpl in H. destruct (pick_earliest ts) as [ [u rest'] | ] eqn:E.
  - specialize (IH u rest' eq_refl).
    destruct (t_due a <=? t_due u); injection H as <- <-.
    + apply Permutation_refl.
    + apply perm_trans with (a :: u :: rest').
      * apply perm_skip, IH.
      * apply perm_swap.
  - injection H as <- <-. destruct ts; [ apply Permutation_refl | ].
    simpl in E. destruct (pick_earliest ts) as [ [? ?] | ];
      [ destruct (_ <=? _) | ]; discriminate E.
Qed.

(** Cancelling a timer leaves the ids of the others distinct. *)
Lemma cancel_keeps_ids_distinct (id : nat) (ts : list Timer) :
  NoDup (map t_id ts) ->
  NoDup (map t_id (filter (fun t => negb (Nat.eqb (t_id t) id)) ts)).
Proof.
  intros Hnd. induction ts as [ | a ts IH ]; [ constructor | ].
  simpl in Hnd. inversion Hnd as [ | x xs Hfresh Hrest ]; subst.
  simpl. destruct (negb (Nat.eqb (t_id a) id)); [ | apply IH, Hrest ].
  simpl. constructor; [ | apply IH, Hrest ].
  intros Hin. apply Hfresh.
  apply in_map_iff in Hin. destruct Hin as (u & Hu & Hkept).
  apply filter_In in Hkept. rewrite <- Hu. apply in_map, Hkept.
Qed.

Lemma quiet_step_inv (s s' : App) :
  repeat_inv s -> quiet_step s s' -> repeat_inv s'.
Proof.
  intros (Hrv & Hnd & Hlt & Htk)
         (Hv & Hr & Ht & (ts & Hp & Hn & Hi & Hx) & _).
  unfold repeat_inv. rewrite Hv, Hr, Ht, Hp, Hx.
  assert (Hts : forall t, In t ts ->
                (next_id s <= t_id t < List.length ts + next_id s)%nat).
  { intros t Hin. apply (in_map t_id) in Hin. rewrite Hi in Hin.
    apply in_seq in Hin. lia. }
  repeat split.
  - exact Hrv.
  - rewrite map_app. apply NoDup_app.
    + exact Hnd.
    + rewrite Hi. apply seq_NoDup.
    + intros a Ha Hb. rewrite Hi in Hb. apply in_seq in Hb.
      apply in_map_iff in Ha. destruct Ha as (t & <- & Hin).
      specialize (Hlt t Hin). lia.
  - intros t Hin. apply in_app_or in Hin. destruct Hin as [Hin | Hin].
    + specialize (Hlt t Hin). lia.
    + specialize (Hts t Hin). lia.
  - apply in_app_or in H. destruct H as [Hin | Hin].
    + apply (Htk t Hin H0).
    + apply (proj1 (no_ticks_In _) Hn) in Hin. rewrite H0 in Hin. discriminate Hin.
  - apply in_app_or in H. destruct H as [Hin | Hin].
    + apply (Htk t Hin H0).
    + apply (proj1 (no_ticks_In _) Hn) in Hin. rewrite H0 in Hin. discriminate Hin.
Qed.

(** [_schedule_next_repeat] while repeat is on. *)
Lemma schedule_next_repeat_on (s : App) :
  _running_repeat s = true ->
  exists s',
    _schedule_next_repeat s = (Return tt, s') /\
    vars s' = vars s /\
    _running_repeat s' = true /\
    _repeat_timer s' = Some (next_id s) /\
    next_id s' = S (next_id s) /\
    pending s' =
      pending s ++
      [mkTimer (next_id s) ThreadTimer
               (now s + Z.max 0 (Z.max 200 (repeat_interval_ms_var (vars s))))
               CbRepeatTick].
Proof.
  intros Hr.
  destruct s as [w [fps bf rf fr tg tf tm fm rv ri cv cs cb]
                   bg ct nl rt rr t0 nid pd tr].
  cbn in Hr. subst rr.
  eexists; split; [ exec; reflexivity | ]. repeat split.
Qed.

(** Starting the one tick in a state that has none. *)
Lemma new_tick_inv (s s' : App) (due : Z) :
  _running_repeat s = repeat_var (vars s) ->
  NoDup (map t_id (pending s)) ->
  (forall t, In t (pending s) -> (t_id t < next_id s)%nat) ->
  no_ticks (pending s) ->
  vars s' = vars s ->
  _running_repeat s = true ->
  _running_repeat s' = true ->
  _repeat_timer s' = Some (next_id s) ->
  next_id s' = S (next_id s) ->
  pending s' = pending s ++ [mkTimer (next_id s) ThreadTimer due CbRepeatTick] ->
  repeat_inv s'.
Proof.
  intros Hrv Hnd Hlt Hn Hv Hr Hr' Ht' Hx' Hp'.
  unfold repeat_inv. rewrite Hv, Hr', Ht', Hx', Hp'.
  repeat split.
  - congruence.
  - rewrite map_app. apply NoDup_app.
    + exact Hnd.
    + simpl. constructor; [ intros [] | constructor ].
    + intros a Ha [ <- | [] ]. apply in_map_iff in Ha.
      destruct Ha as (t & Heq & Hin). specialize (Hlt t Hin). simpl in Heq. lia.
  - intros t Hin. apply in_app_or in Hin. destruct Hin as [Hin | [ <- | [] ]].
    + specialize (Hlt t Hin). lia.
    + simpl. lia.
  - apply in_app_or in H. destruct H as [Hin | [ <- | [] ]].
    + apply (proj1 (no_ticks_In _) Hn) in Hin. rewrite H0 in Hin. discriminate Hin.
    + reflexivity.
Qed.

Lemma fire_next_inv (s s' : App) :
  repeat_inv s -> fire_next s = Some s' -> repeat_inv s'.
Proof.
  intros (Hrv & Hnd & Hlt & Htk) Hfire. unfold fire_next in Hfire.
  destruct (pick_earliest (pending s)) as [ [t rest] | ] eqn:E; [ | discriminate ].
  pose proof (pick_earliest_perm _ _ _ E) as Hperm.
  destruct (pick_earliest_In _ _ _ E) as [Hin Hrest].
  assert (Hnd' : NoDup (t_id t :: map t_id rest)).
  { apply (Permutation_NoDup (Permutation_map t_id Hperm) Hnd). }
  inversion Hnd' as [ | x xs Hfresh Hndr ]; subst.
  unfold bind, log, modify in Hfire.
  match type of Hfire with
  | context [run_callback _ ?x] => set (s1 := x) in *
  end.
  assert (Hinv1 : repeat_inv s1).
  { unfold repeat_inv, s1. cbn. repeat split; auto.
    - apply (Htk t0); auto.
    - apply (Htk t0); auto. }
  destruct (is_tick (t_cb t)) eqn:Hcb.
  - (* the tick fires: one test, one successor *)
    assert (Hcb' : t_cb t = CbRepeatTick)
      by (destruct (t_cb t); try discriminate Hcb; reflexivity).
    destruct (Htk t Hin Hcb') as [Htrk Hon].
    assert (Hnt : no_ticks rest).
    { apply no_ticks_In. intros u Hu.
      destruct (is_tick (t_cb u)) eqn:Hu'; [ exfalso | reflexivity ].
      assert (Hu'' : t_cb u = CbRepeatTick)
        by (destruct (t_cb u); try discriminate Hu'; reflexivity).
      destruct (Htk u (Hrest u Hu) Hu'') as [Htrk' _].
      rewrite Htrk in Htrk'. injection Htrk' as Heq.
      apply Hfresh. rewrite Heq. apply in_map, Hu. }
    rewrite Hcb' in Hfire. cbn [run_callback] in Hfire.
    unfold _repeat_tick, bind, gets, try_finally in Hfire.
    replace (_running_repeat s1) with true in Hfire by (symmetry; exact Hon).
    cbn [negb] in Hfire.
    destruct (run_test_quiet s1) as [s2 [Hrun Hq]]. rewrite Hrun in Hfire.
    pose proof Hq as (Hv2 & Hr2 & _ & (ts & Hp2 & Hn2 & _) & _).
    pose proof (quiet_step_inv _ _ Hinv1 Hq) as (Hrv2 & Hnd2 & Hlt2 & _).
    assert (Hon2 : _running_repeat s2 = true) by (rewrite Hr2; exact Hon).
    destruct (schedule_next_repeat_on s2 Hon2)
      as (s3 & Hsched & Hv3 & Hr3 & Ht3 & Hx3 & Hp3).
    rewrite Hsched in Hfire. injection Hfire as <-.
    eapply (new_tick_inv s2 s3 _ Hrv2 Hnd2 Hlt2); try eassumption.
    rewrite Hp2. unfold no_ticks in *. cbn [pending s1 set_trace set_now set_pending].
    rewrite forallb_app, Hn2, andb_true_r. exact Hnt.
  - destruct (callback_quiet (t_cb t) s1 Hcb) as [s2 [Hrun Hq]].
    rewrite Hrun in Hfire. injection Hfire as <-.
    apply (quiet_step_inv _ _ Hinv1 Hq).
Qed.

Lemma toggle_repeat_on (s : App) :
  repeat_var (vars s) = true ->
  exists s',
    _toggle_repeat s = (Return tt, s') /\
    vars s' = vars s /\
    _running_repeat s' = true /\
    _repeat_timer s' = Some (next_id s) /\
    next_id s' = S (next_id s) /\
    pending s' =
      pending s ++
      [mkTimer (next_id s) ThreadTimer
               (now s + Z.max 0 (Z.max 200 (repeat_interval_ms_var (vars s))))
               CbRepeatTick].
Proof.
  intros Hrv.
  destruct s as [w [fps bf rf fr tg tf tm fm rv ri cv cs cb]
                   bg ct nl rt rr t0 nid pd tr].
  cbn in Hrv. subst rv.
  eexists; split; [ exec; reflexivity | ]. repeat split.
Qed.

Lemma click_repeat_inv (s s' : App) :
  repeat_inv s -> click_repeat s = (Return tt, s') -> repeat_inv s'.
Proof.
  intros (Hrv & Hnd & Hlt & Htk) Hclick.
  unfold click_repeat, bind, modify in Hclick.
  set (s1 := set_vars (flip_repeat_var (vars s)) s) in *.
  destruct (repeat_var (vars s)) eqn:Hbox.
  - (* the box was ticked: this click unticks it *)
    assert (Hoff : repeat_var (vars s1) = false) by (cbn; rewrite Hbox; reflexivity).
    destruct (toggle_repeat_off s1 Hoff)
      as (s2 & Hrun & Hr2 & Ht2 & _ & Hp2 & _ & Hv2 & Hx2).
    rewrite Hrun in Hclick. injection Hclick as <-.
    assert (Htracked : ticks_tracked s1).
    { intros t Hin Hcb. apply (Htk t Hin Hcb). }
    pose proof (ticks_tracked_cancelled s1 Htracked) as Hnt.
    rewrite <- Hp2 in Hnt.
    unfold repeat_inv. rewrite Hv2, Hr2, Hx2, Hoff.
    split; [ reflexivity | ]. split; [ | split ].
    + rewrite Hp2. destruct (_repeat_timer s1).
      * apply cancel_keeps_ids_distinct, Hnd.
      * exact Hnd.
    + intros t Hin. apply Hlt. rewrite Hp2 in Hin.
      destruct (_repeat_timer s1); [ apply filter_In in Hin; apply Hin | exact Hin ].
    + intros t Hin Hcb. apply (proj1 (no_ticks_In _) Hnt) in Hin.
      rewrite Hcb in Hin. discriminate Hin.
  - (* the box was clear: this click ticks it *)
    assert (Hon : repeat_var (vars s1) = true) by (cbn; rewrite Hbox; reflexivity).
    destruct (toggle_repeat_on s1 Hon) as (s2 & Hrun & Hv2 & Hr2 & Ht2 & Hx2 & Hp2).
    rewrite Hrun in Hclick. injection Hclick as <-.
    assert (Hnt : no_ticks (pending s)).
    { apply no_ticks_In. intros t Hin.
      destruct (is_tick (t_cb t)) eqn:Hcb; [ exfalso | reflexivity ].
      assert (Hcb' : t_cb t = CbRepeatTick)
        by (destruct (t_cb t); try discriminate Hcb; reflexivity).
      destruct (Htk t Hin Hcb') as [_ Hr]. congruence. }
    unfold repeat_inv. rewrite Hv2, Hr2, Ht2, Hx2, Hp2, Hon.
    cbn [s1 pending next_id set_vars].
    split; [ reflexivity | ]. split; [ | split ].
    + rewrite map_app. apply NoDup_app.
      * exact Hnd.
      * simpl. constructor; [ intros [] | constructor ].
      * intros a Ha [ <- | [] ]. apply in_map_iff in Ha.
        destruct Ha as (t & Heq & Hin). specialize (Hlt t Hin). simpl in Heq. lia.
    + intros t Hin. apply in_app_or in Hin. destruct Hin as [Hin | [ <- | [] ]].
      * specialize (Hlt t Hin). lia.
      * simpl. lia.
    + intros t Hin Hcb. apply in_app_or in Hin. destruct Hin as [Hin | [ <- | [] ]].
      * apply (proj1 (no_ticks_In _) Hnt) in Hin. rewrite Hcb in Hin. discriminate Hin.
      * split; reflexivity.
Qed.

Lemma app_step_inv (s s' : App) :
  repeat_inv s -> app_step s s' -> repeat_inv s'.
Proof.
  intros Hinv Hstep. destruct Hstep as [ s s' H | s s' H | s s' H | v s H ].
  - apply (fire_next_inv s s' Hinv H).
  - destruct (run_test_quiet s) as [s2 [Hrun Hq]].
    rewrite Hrun in H. injection H as <-.
    apply (quiet_step_inv s s2 Hinv Hq).
  - apply (click_repeat_inv s s' Hinv H).
  - destruct Hinv as (Hrv & Hnd & Hlt & Htk).
    unfold repeat_inv. cbn. rewrite H. repeat split; auto.
    + apply (Htk t); assumption.
    + apply (Htk t); assumption.
Qed.

(** In every state the program can reach, the repeat invariant holds; in
    particular every pending tick is the tracked one. *)
Lemma reachable_repeat_inv (s : App) : reachable s -> repeat_inv s.
Proof.
  induction 1 as [ w v Hv | s s' _ IH Hstep ].
  - unfold repeat_inv. cbn. rewrite Hv.
    split; [ reflexivity | ]. split; [ constructor | ].
    split; intros t [].
  - apply (app_step_inv s s' IH Hstep).
Qed.

Lemma reachable_ticks_tracked (s : App) : reachable s -> ticks_tracked s.
Proof.
  intros H t Hin Hcb.
  apply (proj2 (proj2 (proj2 (reachable_repeat_inv s H))) t Hin Hcb).
Qed.

(** Once the box is unticked, the loop never dispatches a tick again. *)
Lemma toggle_off_silences (s : App) :
  repeat_var (vars s) = false ->
  exists s1,
    _toggle_repeat s = (Return tt, s1) /\
    _running_repeat s1 = false /\
    (forall id, _repeat_timer s = Some id -> ~ In id (map t_id (pending s1))) /\
    (ticks_tracked s ->
     forall n,
       no_tick_events (new_trace s (run_loop n s1)) /\
       no_ticks (pending (run_loop n s1)) /\
       _running_repeat (run_loop n s1) = false).
Proof.
  intros Hrv.
  destruct (toggle_repeat_off s Hrv) as (s1 & Hrun & Hr1 & _ & _ & Hp1 & Htr1 & _).
  exists s1. split; [ exact Hrun | ]. split; [ exact Hr1 | ]. split.
  - intros id Hid Hin. rewrite Hp1, Hid in Hin.
    apply in_map_iff in Hin. destruct Hin as (t & Htid & Ht).
    apply filter_In in Ht. destruct Ht as [_ Hne].
    rewrite Htid, Nat.eqb_refl in Hne. discriminate Hne.
  - intros Htracked n.
    assert (Hn1 : no_ticks (pending s1))
      by (rewrite Hp1; apply ticks_tracked_cancelled, Htracked).
    destruct (run_loop_quiet n s1 Hr1 Hn1) as (Hr & Hn & es & He & Hne).
    split; [ | split; assumption ].
    unfold new_trace. rewrite He, Htr1, <- app_assoc, skipn_prefix.
    unfold no_tick_events in *. rewrite forallb_app, Hne. reflexivity.
Qed.

(** C7.  A tick that finds [_running_repeat] off returns at once: no
    test, no successor, the state untouched.  [_toggle_repeat] with the
    box unticked turns the flag off and cancels the timer [_repeat_timer]
    refers to, which is then no longer pending; when the pending ticks are
    the tracked one, then however long the loop runs afterwards no repeat
    tick is dispatched, none is pending, and the flag stays off.  That
    holds in every state the program can reach: after a click that unticks
    the box, no repeat tick ever fires. *)
Theorem repeat_disabled_stops_ticks (s : App) :
  (_running_repeat s = false -> _repeat_tick s = (Return tt, s)) /\
  (repeat_var (vars s) = false ->
   exists s1,
     _toggle_repeat s = (Return tt, s1) /\
     _running_repeat s1 = false /\
     (forall id, _repeat_timer s = Some id -> ~ In id (map t_id (pending s1))) /\
     (ticks_tracked s ->
      forall n,
        no_tick_events (new_trace s (run_loop n s1)) /\
        no_ticks (pending (run_loop n s1)) /\
        _running_repeat (run_loop n s1) = false)) /\
  (reachable s ->
   repeat_var (vars s) = true ->
   exists s1,
     click_repeat s = (Return tt, s1) /\
     forall n,
       no_tick_events (new_trace s (run_loop n s1)) /\
       no_ticks (pending (run_loop n s1)) /\
       _running_repeat (run_loop n s1) = false).
Proof.
  split; [ apply repeat_tick_off | ].
  split; [ apply toggle_off_silences | ].
  intros Hreach Hbox.
  pose proof (reachable_ticks_tracked s Hreach) as Htracked.
  assert (Hoff : repeat_var (vars (set_vars (flip_repeat_var (vars s)) s)) = false)
    by (cbn; rewrite Hbox; reflexivity).
  destruct (toggle_off_silences _ Hoff) as (s1 & Hrun & _ & _ & Hquiet).
  exists s1. split.
  - unfold click_repeat, bind, modify. exact Hrun.
  - intros n. apply (Hquiet Htracked n).
Qed.

Lemma repeat_disabled_stops_ticks_witness :
  _repeat_tick (idle_app 24 0 "Audio") = (Return tt, idle_app 24 0 "Audio") /\
  (exists s1,
     _toggle_repeat unticked_app = (Return tt, s1) /\
     _running_repeat s1 = false /\
     forall n, no_tick_events (new_trace unticked_app (run_loop n s1))) /\
  reachable repeating_app /\
  List.length (pending repeating_app) = 1%nat /\
  exists s1,
    click_repeat repeating_app = (Return tt, s1) /\
    forall n,
      no_tick_events (new_trace repeating_app (run_loop n s1)) /\
      no_ticks (pending (run_loop n s1)) /\
      _running_repeat (run_loop n s1) = false.
Proof.
  assert (Hreach : reachable repeating_app).
  { apply (reach_step (idle_app 24 0 "Audio")).
    - apply reach_init. reflexivity.
    - apply step_repeat_box. reflexivity. }
  assert (Htracked : ticks_tracked unticked_app).
  { intros t Hin Hcb. vm_compute in Hin.
    destruct Hin as [ <- | [] ]. reflexivity. }
  split.
  - apply (proj1 (repeat_disabled_stops_ticks (idle_app 24 0 "Audio"))). reflexivity.
  - split.
    + destruct (proj1 (proj2 (repeat_disabled_stops_ticks unticked_app)) eq_refl)
        as (s1 & Hrun & Hoff & _ & Hquiet).
      exists s1. split; [ exact Hrun | ]. split; [ exact Hoff | ].
      intros n. apply (Hquiet Htracked n).
    + split; [ exact Hreach | ]. split; [ reflexivity | ].
      apply (proj2 (proj2 (repeat_disabled_stops_ticks repeating_app)) Hreach eq_refl).
Defined.

(** ** Agreement with binary64 at the inputs used above *)

(** The two scenarios of C2: 12 frames and [abs(-6)] frames at 24 fps are
    500.0 and 250.0 ms in floating point too, so [round] leaves them as
    they are. *)
Example frames_to_ms_f64_scenarios :
  frames_to_ms_f64 24 12 = 500%float /\
  frames_to_ms_f64 24 (PrimFloat.abs (-6)) = 250%float.
Proof. split; reflexivity. Qed.

(** The input of C4: [abs(-0.01)] frames at 24 fps is below half a
    millisecond in floating point too, so [delay_ms] is 0. *)
Example frames_to_ms_f64_below_half :
  PrimFloat.leb 0 (frames_to_ms_f64 24 (PrimFloat.abs (-0.01))) = true /\
  PrimFloat.ltb (frames_to_ms_f64 24 (PrimFloat.abs (-0.01))) 0.5 = true.
Proof. split; reflexivity. Qed.

(** The input of the C3 counterexample: at [fps = 1e-7] one frame is
    [1e9] ms in floating point too. *)
Example frames_to_ms_f64_tiny_fps :
  PrimFloat.ltb 0 1e-7 = true /\
  frames_to_ms_f64 1e-7 1 = 1000000000%float.
Proof. split; reflexivity. Qed.

(** The input of the C5 counterexample: [80.0 + 1.0] is [81.0]. *)
Example nudge_f64_leaves_range :
  PrimFloat.add 80 1 = 81%float /\ PrimFloat.leb (PrimFloat.add 80 1) 80 = false.
Proof. split; reflexivity. Qed.

(** * More properties of the program *)

(** ** Tests leave the settings and the repeat loop alone *)


(** ** Which timer carries which event *)


(** ** After a test *)









(** ** Settings changed while a test is in flight *)





(** ** The repeat loop keeps exactly one tick *)

Lemma count_ticks_app (a b : list Timer) :
  count_ticks (a ++ b) = (count_ticks a + count_ticks b)%nat.
Proof.
  unfold count_ticks. rewrite filter_app, length_app. reflexivity.
Qed.

Lemma count_ticks_none (ts : list Timer) : no_ticks ts -> count_ticks ts = 0%nat.
Proof.
  intros H. unfold count_ticks.
  induction ts as [ | t ts IH ]; [ reflexivity | ].
  unfold no_ticks in H. simpl in H. apply andb_true_iff in H.
  destruct H as [Ht Hts]. simpl.
  destruct (is_tick (t_cb t)); [ discriminate Ht | apply IH, Hts ].
Qed.

Lemma count_ticks_perm (a b : list Timer) :
  Permutation a b -> count_ticks a = count_ticks b.
Proof.
  intros H. unfold count_ticks.
  induction H as [ | x l l' _ IH | x y l | l l' l'' _ IH1 _ IH2 ]; simpl.
  - reflexivity.
  - destruct (is_tick (t_cb x)); simpl; rewrite IH; reflexivity.
  - destruct (is_tick (t_cb x)), (is_tick (t_cb y)); reflexivity.
  - rewrite IH1. exact IH2.
Qed.

Lemma fire_next_tick_count (s s' : App) :
  count_ticks (pending s) = (if _running_repeat s then 1 else 0)%nat ->
  fire_next s = Some s' ->
  count_ticks (pending s') = (if _running_repeat s' then 1 else 0)%nat.
Proof.
  intros Hc Hfire. unfold fire_next in Hfire.
  destruct (pick_earliest (pending s)) as [ [t rest] | ] eqn:E; [ | discriminate ].
  pose proof (count_ticks_perm _ _ (pick_earliest_perm _ _ _ E)) as Hperm.
  unfold bind, log, modify in Hfire.
  match type of Hfire with
  | context [run_callback _ ?x] => set (s1 := x) in *
  end.
  assert (Hr1 : _running_repeat s1 = _running_repeat s) by reflexivity.
  assert (Hp1 : pending s1 = rest) by reflexivity.
  destruct (is_tick (t_cb t)) eqn:Hcb.
  - assert (Hcb' : t_cb t = CbRepeatTick)
      by (destruct (t_cb t); try discriminate Hcb; reflexivity).
    change (t :: rest) with ([t] ++ rest) in Hperm.
    rewrite count_ticks_app in Hperm. unfold count_ticks at 2 in Hperm.
    simpl in Hperm. rewrite Hcb in Hperm. simpl in Hperm.
    rewrite Hperm in Hc.
    destruct (_running_repeat s) eqn:Hon; [ | discriminate Hc ].
    injection Hc as Hrest.
    rewrite Hcb' in Hfire. cbn [run_callback] in Hfire.
    unfold _repeat_tick, bind, gets, try_finally in Hfire.
    rewrite Hr1 in Hfire. cbn [negb] in Hfire.
    destruct (run_test_quiet s1) as (s2 & Hrun & _ & Hr2 & _ & (ts & Hp2 & Hn2 & _) & _).
    rewrite Hrun in Hfire.
    assert (Hon2 : _running_repeat s2 = true) by (rewrite Hr2, Hr1; reflexivity).
    destruct (schedule_next_repeat_on s2 Hon2)
      as (s3 & Hsched & _ & Hr3 & _ & _ & Hp3).
    rewrite Hsched in Hfire. injection Hfire as <-.
    rewrite Hr3, Hp3, Hp2, Hp1, !count_ticks_app, Hrest, (count_ticks_none _ Hn2).
    reflexivity.
  - destruct (callback_quiet (t_cb t) s1 Hcb)
      as (s2 & Hrun & _ & Hr2 & _ & (ts & Hp2 & Hn2 & _) & _).
    rewrite Hrun in Hfire. injection Hfire as <-.
    change (t :: rest) with ([t] ++ rest) in Hperm.
    rewrite count_ticks_app in Hperm. unfold count_ticks at 2 in Hperm.
    simpl in Hperm. rewrite Hcb in Hperm. simpl in Hperm.
    rewrite Hr2, Hr1, Hp2, Hp1, count_ticks_app, (count_ticks_none _ Hn2), Nat.add_0_r.
    rewrite <- Hperm. exact Hc.
Qed.

Lemma reachable_count_ticks (s : App) :
  reachable s ->
  count_ticks (pending s) = (if _running_repeat s then 1 else 0)%nat.
Proof.
  induction 1 as [ w v Hv | s s' Hreach IH Hstep ]; [ reflexivity | ].
  pose proof (reachable_repeat_inv s Hreach) as Hinv.
  destruct Hstep as [ s s' H | s s' H | s s' H | v s H ].
  - apply (fire_next_tick_count s s' IH H).
  - destruct (run_test_quiet s) as (s2 & Hrun & _ & Hr2 & _ & (ts & Hp2 & Hn2 & _) & _).
    rewrite Hrun in H. injection H as <-.
    rewrite Hr2, Hp2, count_ticks_app, (count_ticks_none _ Hn2), Nat.add_0_r.
    exact IH.
  - destruct Hinv as (Hrv & _ & _ & Htk).
    unfold click_repeat, bind, modify in H.
    set (s1 := set_vars (flip_repeat_var (vars s)) s) in *.
    destruct (repeat_var (vars s)) eqn:Hbox.
    + assert (Hoff : repeat_var (vars s1) = false) by (cbn; rewrite Hbox; reflexivity).
      destruct (toggle_repeat_off s1 Hoff) as (s2 & Hrun & Hr2 & _ & _ & Hp2 & _).
      rewrite Hrun in H. injection H as <-.
      assert (Htracked : ticks_tracked s1)
        by (intros t Hin Hcb; apply (Htk t Hin Hcb)).
      pose proof (ticks_tracked_cancelled s1 Htracked) as Hnt.
      rewrite <- Hp2 in Hnt. rewrite Hr2. apply count_ticks_none, Hnt.
    + assert (Hon : repeat_var (vars s1) = true) by (cbn; rewrite Hbox; reflexivity).
      destruct (toggle_repeat_on s1 Hon) as (s2 & Hrun & _ & Hr2 & _ & _ & Hp2).
      rewrite Hrun in H. injection H as <-.
      rewrite Hrv in IH.
      rewrite Hr2, Hp2, count_ticks_app. cbn [pending s1 set_vars]. rewrite IH.
      reflexivity.
  - exact IH.
Qed.

(** X7.  In every state the program can reach, exactly one repeat tick is
    pending while repeat is on and none while it is off: the chain of
    ticks neither breaks nor doubles. *)
Theorem one_tick_while_repeating (s : App) :
  reachable s ->
  count_ticks (pending s) = (if _running_repeat s then 1 else 0)%nat.
Proof.
  apply reachable_count_ticks.
Qed.

Lemma one_tick_while_repeating_witness :
  reachable repeating_app /\
  _running_repeat repeating_app = true /\
  count_ticks (pending repeating_app) = 1%nat.
Proof.
  assert (Hreach : reachable repeating_app).
  { apply (reach_step (idle_app 24 0 "Audio")).
    - apply reach_init. reflexivity.
    - apply step_repeat_box. reflexivity. }
  split; [ exact Hreach | ]. split; [ reflexivity | ].
  apply (one_tick_while_repeating repeating_app Hreach).
Defined.

(** ** No timer is ever overdue *)

Lemma pick_earliest_least (ts : list Timer) (t : Timer) (rest : list Timer) :
  pick_earliest ts = Some (t, rest) ->
  forall u, In u rest -> t_due t <= t_due u.
Proof.
  revert t rest. induction ts as [ | a ts IH ]; intros t rest H; [ discriminate | ].
  simpl in H. destruct (pick_earliest ts) as [ [u rest'] | ] eqn:E.
  - pose proof (IH u rest' eq_refl) as Hall.
    pose proof (pick_earliest_perm _ _ _ E) as Hperm.
    destruct (t_due a <=? t_due u) eqn:Hle; injection H as <- <-.
    + apply Z.leb_le in Hle. intros v Hv.
      apply (Permutation_in _ Hperm) in Hv. destruct Hv as [ <- | Hv ]; [ exact Hle | ].
      specialize (Hall v Hv). lia.
    + apply Z.leb_gt in Hle. intros v [ <- | Hv ]; [ lia | apply Hall, Hv ].
  - injection H as <- <-. intros v [].
Qed.

Lemma timely_step_trans (a b c : App) :
  timely_step a b -> timely_step b c -> timely_step a c.
Proof.
  intros (Hn1 & Hw1 & Hl1 & ts1 & Hp1 & Hf1) (Hn2 & Hw2 & Hl2 & ts2 & Hp2 & Hf2).
  unfold timely_step. repeat split; try congruence.
  exists (ts1 ++ ts2). split.
  - rewrite Hp2, Hp1, app_assoc. reflexivity.
  - apply Forall_app. split; [ exact Hf1 | ]. rewrite <- Hn1. exact Hf2.
Qed.

Ltac solve_timely :=
  unfold timely_step;
  cbn [now world next_label pending];
  split; [ reflexivity | ];
  split; [ reflexivity | ];
  split; [ reflexivity | ];
  grown;
  repeat (apply Forall_cons; [ cbn [t_due]; lia | ]); apply Forall_nil.

Lemma perform_test_events_timely (s : App) : timely_step s (after_test s).
Proof.
  enough (H : exists s', _perform_test_events s = (Return tt, s') /\ timely_step s s').
  { destruct H as [s' [Hrun Hq]]. unfold after_test. rewrite Hrun. exact Hq. }
  unfold _perform_test_events.
  unfold bind at 1. unfold gets at 1.
  unfold bind at 1. rewrite frames_to_ms_eq.
  unfold bind at 1. unfold gets at 1.
  set (d := py_round _). clearbody d.
  destruct s as [w [fps bf rf fr tg tf tm fm rv ri cv cs cb]
                   bg ct nl rt rr t0 nid pd tr].
  cbn [vars delay_target_var audio_delay_frames_var].
  destruct (String.eqb tg "Audio"), (Qle_bool 0 fr);
    try destruct (0 <? d);
    (eexists; split; [ exec; reflexivity | solve_timely ]).
Qed.

Ltac run_timely :=
  eexists; split;
  [ exec; rewrite ?perform_test_events_eq; reflexivity
  | first [ solve_timely
          | eapply timely_step_trans;
            [ | apply perform_test_events_timely ]; solve_timely ] ].

Lemma show_step_timely (step : Z) (i : nat) (s : App) :
  exists s', show_step step i s = (Return tt, s') /\ timely_step s s'.
Proof.
  destruct s as [w [fps bf rf fr tg tf tm fm rv ri cv cs cb]
                   bg ct nl rt rr t0 nid pd tr].
  destruct i as [ | [ | [ | i ] ] ]; try destruct cb; run_timely.
Qed.

Lemma callback_timely (cb : Callback) (s : App) :
  is_tick cb = false ->
  exists s', run_callback cb s = (Return tt, s') /\ timely_step s s'.
Proof.
  intros Hcb.
  destruct cb as [ | | | step i | ]; try discriminate Hcb; clear Hcb;
    try apply show_step_timely;
    destruct s as [w [fps bf rf fr tg tf tm fm rv ri cv cs cb]
                     bg ct nl rt rr t0 nid pd tr];
    run_timely.
Qed.

Lemma run_test_timely (s : App) :
  exists s', run_test s = (Return tt, s') /\ timely_step s s'.
Proof.
  unfold run_test, bind, gets.
  destruct (countdown_var (vars s)).
  - unfold _run_with_countdown, bind, gets. apply show_step_timely.
  - exists (after_test s). split.
    + apply perform_test_events_eq.
    + apply perform_test_events_timely.
Qed.

(** What [_schedule_next_repeat] does besides starting the tick. *)
Lemma schedule_next_repeat_label (s : App) :
  _running_repeat s = true ->
  exists s',
    _schedule_next_repeat s = (Return tt, s') /\
    now s' = now s /\
    world s' = world s /\
    next_label s' =
      ("Next in " ++
       str_of_int (Z.max 200 (repeat_interval_ms_var (vars s))) ++ " ms")%string /\
    trace s' =
      trace s ++
      [(now s,
        ESetNextLabel
          ("Next in " ++
           str_of_int (Z.max 200 (repeat_interval_ms_var (vars s))) ++ " ms"))].
Proof.
  intros Hr.
  destruct s as [w [fps bf rf fr tg tf tm fm rv ri cv cs cb]
                   bg ct nl rt rr t0 nid pd tr].
  cbn in Hr. subst rr.
  eexists; split; [ exec; reflexivity | ]. repeat split.
Qed.

Lemma toggle_repeat_now (s : App) : now (snd (_toggle_repeat s)) = now s.
Proof.
  destruct s as [w [fps bf rf fr tg tf tm fm rv ri cv cs cb]
                   bg ct nl rt rr t0 nid pd tr].
  destruct rv; [ | destruct rt ]; reflexivity.
Qed.

Lemma fire_next_on_time (s s' : App) :
  on_time s ->
  fire_next s = Some s' ->
  on_time s' /\
  exists t rest, pick_earliest (pending s) = Some (t, rest) /\ now s' = t_due t.
Proof.
  intros Hot Hfire. unfold fire_next in Hfire.
  destruct (pick_earliest (pending s)) as [ [t rest] | ] eqn:E; [ | discriminate ].
  destruct (pick_earliest_In _ _ _ E) as [Ht Hrest].
  pose proof (pick_earliest_least _ _ _ E) as Hleast.
  unfold on_time in Hot. rewrite Forall_forall in Hot.
  assert (Hmax : Z.max (now s) (t_due t) = t_due t) by (specialize (Hot t Ht); lia).
  rewrite Hmax in Hfire.
  unfold bind, log, modify in Hfire.
  match type of Hfire with
  | context [run_callback _ ?x] => set (s1 := x) in *
  end.
  assert (Hn1 : now s1 = t_due t) by reflexivity.
  assert (Hp1 : pending s1 = rest) by reflexivity.
  assert (Hrest_ok : Forall (fun u => now s1 <= t_due u) rest).
  { apply Forall_forall. intros u Hu. rewrite Hn1. apply Hleast, Hu. }
  enough (Hcb : exists s2,
             run_callback (t_cb t) s1 = (Return tt, s2) /\
             now s2 = now s1 /\
             exists ts, pending s2 = pending s1 ++ ts /\
                        Forall (fun u => now s1 <= t_due u) ts).
  { destruct Hcb as (s2 & Hrun & Hn2 & ts & Hp2 & Hts).
    rewrite Hrun in Hfire. injection Hfire as <-.
    split.
    - unfold on_time. rewrite Hp2, Hn2, Hp1. apply Forall_app. split; assumption.
    - exists t, rest. split; [ reflexivity | ]. rewrite Hn2. exact Hn1. }
  clear Hfire.
  destruct (is_tick (t_cb t)) eqn:Hcb.
  - assert (Hcb' : t_cb t = CbRepeatTick)
      by (destruct (t_cb t); try discriminate Hcb; reflexivity).
    rewrite Hcb'. cbn [run_callback].
    destruct (_running_repeat s1) eqn:Hon.
    + unfold _repeat_tick, bind, gets, try_finally. rewrite Hon. cbn [negb].
      destruct (run_test_timely s1) as (s2 & Hrun & Hn2 & _ & _ & ts & Hp2 & Hts).
      destruct (run_test_quiet s1) as (s2' & Hrun' & _ & Hr2 & _).
      rewrite Hrun in Hrun'. injection Hrun' as <-.
      assert (Hon2 : _running_repeat s2 = true) by congruence.
      destruct (schedule_next_repeat_on s2 Hon2)
        as (s3 & Hsched & _ & _ & _ & _ & Hp3).
      destruct (schedule_next_repeat_label s2 Hon2) as (s3' & Hsched' & Hn3 & _).
      rewrite Hsched in Hsched'. injection Hsched' as <-.
      rewrite Hrun, Hsched. exists s3.
      split; [ reflexivity | ]. split; [ congruence | ].
      eexists. split.
      * rewrite Hp3, Hp2, <- app_assoc. reflexivity.
      * apply Forall_app. split; [ exact Hts | ].
        apply Forall_cons; [ cbn [t_due]; lia | apply Forall_nil ].
    + rewrite (repeat_tick_off s1 Hon). exists s1.
      split; [ reflexivity | ]. split; [ reflexivity | ].
      exists []. split; [ symmetry; apply app_nil_r | apply Forall_nil ].
  - destruct (callback_timely (t_cb t) s1 Hcb)
      as (s2 & Hrun & Hn2 & _ & _ & ts & Hp2 & Hts).
    exists s2. split; [ exact Hrun | ]. split; [ exact Hn2 | ].
    exists ts. split; assumption.
Qed.

Lemma filter_on_time (f : Timer -> bool) (t0 : Z) (ts : list Timer) :
  Forall (fun t => t0 <= t_due t) ts ->
  Forall (fun t => t0 <= t_due t) (filter f ts).
Proof.
  intros H. apply Forall_forall. intros t Ht.
  apply filter_In in Ht. rewrite Forall_forall in H. apply H, Ht.
Qed.

Lemma reachable_on_time (s : App) : reachable s -> on_time s.
Proof.
  induction 1 as [ w v Hv | s s' Hreach IH Hstep ]; [ apply Forall_nil | ].
  destruct Hstep as [ s s' H | s s' H | s s' H | v s H ].
  - apply (fire_next_on_time s s' IH H).
  - destruct (run_test_timely s) as (s2 & Hrun & Hn2 & _ & _ & ts & Hp2 & Hts).
    rewrite Hrun in H. injection H as <-.
    unfold on_time. rewrite Hp2, Hn2. apply Forall_app. split; assumption.
  - unfold click_repeat, bind, modify in H.
    set (s1 := set_vars (flip_repeat_var (vars s)) s) in *.
    pose proof (toggle_repeat_now s1) as Hnow.
    destruct (repeat_var (vars s)) eqn:Hbox.
    + assert (Hoff : repeat_var (vars s1) = false) by (cbn; rewrite Hbox; reflexivity).
      destruct (toggle_repeat_off s1 Hoff) as (s2 & Hrun & _ & _ & _ & Hp2 & _).
      rewrite Hrun in H, Hnow. injection H as <-. cbn [snd] in Hnow.
      unfold on_time. rewrite Hp2, Hnow.
      destruct (_repeat_timer s1); [ apply filter_on_time | ]; exact IH.
    + assert (Hon : repeat_var (vars s1) = true) by (cbn; rewrite Hbox; reflexivity).
      destruct (toggle_repeat_on s1 Hon) as (s2 & Hrun & _ & _ & _ & _ & Hp2).
      rewrite Hrun in H, Hnow. injection H as <-. cbn [snd] in Hnow.
      unfold on_time. rewrite Hp2, Hnow. apply Forall_app. split; [ exact IH | ].
      apply Forall_cons; [ cbn [t_due]; lia | apply Forall_nil ].
  - exact IH.
Qed.

(** ** Switching repeat on, and the period of the ticks *)

(** X8.  Ticking the Repeat box runs no test at once: [_toggle_repeat]
    raises the flag, writes "Next in N ms" with N = max(200, interval) and
    starts one thread timer for [_repeat_tick], due N ms later, which
    [_repeat_timer] then refers to. *)
Theorem repeat_on_waits_an_interval (s : App) :
  repeat_var (vars s) = true ->
  exists s',
    _toggle_repeat s = (Return tt, s') /\
    _running_repeat s' = true /\
    test_events (new_trace s s') = [] /\
    next_label s' =
      ("Next in " ++
       str_of_int (Z.max 200 (repeat_interval_ms_var (vars s))) ++ " ms")%string /\
    new_timers s s' =
      [mkTimer (next_id s) ThreadTimer
               (now s + Z.max 200 (repeat_interval_ms_var (vars s)))
               CbRepeatTick] /\
    _repeat_timer s' = Some (next_id s).
Proof.
  intros Hrv.
  destruct s as [w [fps bf rf fr tg tf tm fm rv ri cv cs cb]
                   bg ct nl rt rr t0 nid pd tr].
  cbn in Hrv. subst rv.
  eexists; split; [ exec; reflexivity | ].
  unfold new_trace, new_timers, test_events.
  cbn [_running_repeat trace next_label pending _repeat_timer vars
       repeat_interval_ms_var now next_id].
  rewrite !skipn_prefix.
  repeat split. f_equal. f_equal. lia.
Qed.

Lemma repeat_on_waits_an_interval_witness :
  exists s',
    _toggle_repeat ticked_app = (Return tt, s') /\
    new_timers ticked_app s' = [mkTimer 0 ThreadTimer 1000 CbRepeatTick].
Proof.
  destruct (repeat_on_waits_an_interval ticked_app eq_refl)
    as (s' & Hrun & _ & _ & _ & Ht & _).
  exists s'. split; [ exact Hrun | exact Ht ].
Defined.

(** X9.  In a reachable state whose next timer is the repeat tick, the
    loop dispatches it at its due time, with repeat on; the tick leaves,
    after whatever timers its test started, one new tick due
    max(200, interval) ms after the old one, the interval being read when
    the tick runs, and the label announces that wait. *)
Theorem repeat_tick_period (s : App) (t : Timer) (rest : list Timer) :
  reachable s ->
  pick_earliest (pending s) = Some (t, rest) ->
  t_cb t = CbRepeatTick ->
  exists s' ts id,
    fire_next s = Some s' /\
    now s' = t_due t /\
    _running_repeat s' = true /\
    no_ticks ts /\
    pending s' =
      rest ++ ts ++
      [mkTimer id ThreadTimer
               (t_due t + Z.max 200 (repeat_interval_ms_var (vars s)))
               CbRepeatTick] /\
    _repeat_timer s' = Some id /\
    next_label s' =
      ("Next in " ++
       str_of_int (Z.max 200 (repeat_interval_ms_var (vars s))) ++ " ms")%string.
Proof.
  intros Hreach E Hcb.
  destruct (pick_earliest_In _ _ _ E) as [Ht _].
  pose proof (reachable_on_time s Hreach) as Hot.
  unfold on_time in Hot. rewrite Forall_forall in Hot.
  assert (Hmax : Z.max (now s) (t_due t) = t_due t) by (specialize (Hot t Ht); lia).
  destruct (reachable_repeat_inv s Hreach) as (_ & _ & _ & Htk).
  destruct (Htk t Ht Hcb) as [_ Hon].
  unfold fire_next. rewrite E, Hcb, Hmax. cbn [run_callback].
  unfold bind at 1. unfold log, modify.
  match goal with
  | |- context [_repeat_tick ?x] => set (s1 := x)
  end.
  assert (Hn1 : now s1 = t_due t) by reflexivity.
  assert (Hp1 : pending s1 = rest) by reflexivity.
  assert (Hv1 : vars s1 = vars s) by reflexivity.
  assert (Hr1 : _running_repeat s1 = true) by exact Hon.
  unfold _repeat_tick, bind, gets, try_finally. rewrite Hr1. cbn [negb].
  destruct (run_test_timely s1) as (s2 & Hrun & Hn2 & _ & _).
  destruct (run_test_quiet s1)
    as (s2' & Hrun' & Hv2 & Hr2 & _ & (ts & Hp2 & Hnt & _) & _).
  rewrite Hrun in Hrun'. injection Hrun' as <-.
  assert (Hon2 : _running_repeat s2 = true) by congruence.
  destruct (schedule_next_repeat_on s2 Hon2)
    as (s3 & Hsched & _ & Hr3 & Hid3 & _ & Hp3).
  destruct (schedule_next_repeat_label s2 Hon2)
    as (s3' & Hsched' & Hn3 & _ & Hl3 & _).
  rewrite Hsched in Hsched'. injection Hsched' as <-.
  rewrite Hrun, Hsched.
  exists s3, ts, (next_id s2).
  split; [ reflexivity | ].
  split; [ congruence | ].
  split; [ exact Hr3 | ].
  split; [ exact Hnt | ].
  split; [ | split ].
  - rewrite Hp3, Hp2, Hp1, <- app_assoc, Hn2, Hn1, Hv2, Hv1.
    do 4 f_equal. lia.
  - exact Hid3.
  - rewrite Hl3, Hv2, Hv1. reflexivity.
Qed.

Lemma repeat_tick_period_witness :
  exists s' ts id,
    fire_next repeating_app = Some s' /\
    now s' = 1000 /\
    no_ticks ts /\
    pending s' = [] ++ ts ++ [mkTimer id ThreadTimer 2000 CbRepeatTick].
Proof.
  assert (Hreach : reachable repeating_app).
  { apply (reach_step (idle_app 24 0 "Audio")).
    - apply reach_init. reflexivity.
    - apply step_repeat_box. reflexivity. }
  destruct (repeat_tick_period repeating_app
              (mkTimer 0 ThreadTimer 1000 CbRepeatTick) [] Hreach eq_refl eq_refl)
    as (s' & ts & id & Hfire & Hnow & _ & Hnt & Hp & _).
  exists s', ts, id. repeat split; assumption.
Defined.

(** ** The countdown's settings *)

(** X10.  A countdown fixes its step when it starts and reads
    [countdown_beeps_var] at every digit: when both settings are edited
    while it runs (after [k] of its timers, [k <= 2], have fired), the
    digits still come one original step apart and the test follows three
    original steps after the start; the digits shown so far had their cue
    tones according to the old setting, the later ones according to the
    new one. *)
Theorem countdown_step_fixed_beeps_live
    (s : App) (k : nat) (step' : Z) (beeps' : bool) :
  countdown_var (vars s) = true ->
  pending s = [] ->
  (k <= 2)%nat ->
  exists s0 s3,
    run_test s = (Return tt, s0) /\
    run_loop (3 - k) (set_countdown_settings step' beeps' (run_loop k s0))
      = after_test s3 /\
    now s3 = now s + 3 * Z.max 200 (countdown_step_ms_var (vars s)) /\
    center_updates (new_trace s s3) =
      [(now s, "3"%string);
       (now s + Z.max 200 (countdown_step_ms_var (vars s)), "2"%string);
       (now s + 2 * Z.max 200 (countdown_step_ms_var (vars s)), "1"%string);
       (now s + 3 * Z.max 200 (countdown_step_ms_var (vars s)), ""%string)] /\
    tones (new_trace s s3) =
      (if countdown_beeps_var (vars s)
       then firstn (S k)
              (cue_tones (now s) (Z.max 200 (countdown_step_ms_var (vars s))))
       else []) ++
      (if beeps'
       then skipn (S k)
              (cue_tones (now s) (Z.max 200 (countdown_step_ms_var (vars s))))
       else []).
Proof.
  intros Hcd Hp Hk.
  destruct s as [w [fps bf rf fr tg tf tm fm rv ri cv cs cb]
                   bg ct nl rt rr t0 nid pd tr].
  cbn in Hcd, Hp. subst cv pd.
  cbn [vars countdown_step_ms_var countdown_beeps_var now].
  destruct k as [ | [ | [ | k ] ] ]; try lia; clear Hk;
    cbn [Nat.sub]; destruct cb, beeps';
    (do 2 eexists; split; [ exec; reflexivity | ]).
  1-4: (split; [ unfold set_countdown_settings; settle;
                 fire; fire; fire_test; reflexivity | ]).
  5-8: (split; [ fire; unfold set_countdown_settings; settle;
                 fire; fire_test; reflexivity | ]).
  9-12: (split; [ fire; fire; unfold set_countdown_settings; settle;
                  fire_test; reflexivity | ]).
  all: cbn [now];
    unfold new_trace, cue_tones; cbn [trace firstn skipn];
    rewrite <- ?app_assoc, skipn_prefix;
    rewrite ?center_updates_app, ?center_updates_beep,
      ?tones_app, ?tones_beep;
    cbn [center_updates tones app];
    repeat split; finish_list.
Qed.

Lemma countdown_step_fixed_beeps_live_witness :
  exists s0 s3,
    run_test (countdown_app 700 true) = (Return tt, s0) /\
    run_loop 2 (set_countdown_settings 5000 false (run_loop 1 s0)) = after_test s3 /\
    now s3 = 2100 /\
    tones (new_trace (countdown_app 700 true) s3) =
      [(0, (600, 90, 15 # 100)); (700, (700, 90, 15 # 100))].
Proof.
  destruct (countdown_step_fixed_beeps_live (countdown_app 700 true) 1 5000 false
              eq_refl eq_refl (le_S 1 1 (le_n 1)))
    as (s0 & s3 & Hrun & Hloop & Hnow & _ & Htones).
  exists s0, s3. repeat split; assumption.
Defined.

(** ** The handle of the tick, and switching repeat off *)

Lemma timer_of_id (l : list Timer) (a b : Timer) :
  NoDup (map t_id l) -> In a l -> In b l -> t_id a = t_id b -> a = b.
Proof.
  induction l as [ | x l IH ]; intros Hnd Ha Hb Hid; [ destruct Ha | ].
  simpl in Hnd. inversion Hnd as [ | ? ? Hx Hnd' ]; subst.
  destruct Ha as [ <- | Ha ], Hb as [ <- | Hb ].
  - reflexivity.
  - exfalso. apply Hx. rewrite Hid. apply in_map, Hb.
  - exfalso. apply Hx. rewrite <- Hid. apply in_map, Ha.
  - apply IH; assumption.
Qed.

Lemma counted_tick (l : list Timer) :
  count_ticks l = 1%nat -> exists t, In t l /\ t_cb t = CbRepeatTick.
Proof.
  unfold count_ticks. induction l as [ | x l IH ]; [ discriminate | ].
  simpl. destruct (is_tick (t_cb x)) eqn:Hx.
  - intros _. exists x. split; [ left; reflexivity | ].
    destruct (t_cb x); try discriminate Hx; reflexivity.
  - intros H. destruct (IH H) as (t & Ht & Hcb).
    exists t. split; [ right; exact Ht | exact Hcb ].
Qed.

Lemma fire_next_repeat_fields (s s' : App) :
  fire_next s = Some s' ->
  _running_repeat s' = true \/
  (_running_repeat s' = _running_repeat s /\ _repeat_timer s' = _repeat_timer s).
Proof.
  intros Hfire. unfold fire_next in Hfire.
  destruct (pick_earliest (pending s)) as [ [t rest] | ] eqn:E; [ | discriminate ].
  unfold bind, log, modify in Hfire.
  match type of Hfire with
  | context [run_callback _ ?x] => set (s1 := x) in *
  end.
  assert (Hr1 : _running_repeat s1 = _running_repeat s) by reflexivity.
  assert (Ht1 : _repeat_timer s1 = _repeat_timer s) by reflexivity.
  destruct (is_tick (t_cb t)) eqn:Hcb.
  - assert (Hcb' : t_cb t = CbRepeatTick)
      by (destruct (t_cb t); try discriminate Hcb; reflexivity).
    rewrite Hcb' in Hfire. cbn [run_callback] in Hfire.
    destruct (_running_repeat s1) eqn:Hon.
    + left.
      unfold _repeat_tick, bind, gets, try_finally in Hfire.
      rewrite Hon in Hfire. cbn [negb] in Hfire.
      destruct (run_test_quiet s1) as (s2 & Hrun & _ & Hr2 & _).
      rewrite Hrun in Hfire.
      assert (Hon2 : _running_repeat s2 = true) by congruence.
      destruct (schedule_next_repeat_on s2 Hon2) as (s3 & Hsched & _ & Hr3 & _).
      rewrite Hsched in Hfire. injection Hfire as <-. exact Hr3.
    + right. rewrite (repeat_tick_off s1 Hon) in Hfire.
      injection Hfire as <-. rewrite <- Hr1. split; [ congruence | exact Ht1 ].
  - right. destruct (callback_quiet (t_cb t) s1 Hcb) as (s2 & Hrun & _ & Hr2 & Ht2 & _).
    rewrite Hrun in Hfire. injection Hfire as <-. split; congruence.
Qed.

Lemma reachable_handle_none (s : App) :
  reachable s -> _running_repeat s = false -> _repeat_timer s = None.
Proof.
  induction 1 as [ w v Hv | s s' Hreach IH Hstep ]; [ reflexivity | ].
  intros Hoff.
  destruct Hstep as [ s s' H | s s' H | s s' H | v s H ].
  - destruct (fire_next_repeat_fields s s' H) as [ Hon | [Hr Ht] ]; [ congruence | ].
    rewrite Ht. apply IH. congruence.
  - destruct (run_test_quiet s) as (s2 & Hrun & _ & Hr2 & Ht2 & _).
    rewrite Hrun in H. injection H as <-. rewrite Ht2. apply IH. congruence.
  - unfold click_repeat, bind, modify in H.
    set (s1 := set_vars (flip_repeat_var (vars s)) s) in *.
    destruct (repeat_var (vars s)) eqn:Hbox.
    + assert (Hrv : repeat_var (vars s1) = false) by (cbn; rewrite Hbox; reflexivity).
      destruct (toggle_repeat_off s1 Hrv) as (s2 & Hrun & _ & Ht2 & _).
      rewrite Hrun in H. injection H as <-. exact Ht2.
    + assert (Hrv : repeat_var (vars s1) = true) by (cbn; rewrite Hbox; reflexivity).
      destruct (toggle_repeat_on s1 Hrv) as (s2 & Hrun & _ & Hr2 & _).
      rewrite Hrun in H. injection H as <-. congruence.
  - apply IH. exact Hoff.
Qed.

(** X11.  In every reachable state [_repeat_timer] is current: while
    repeat is on it is the id of a pending repeat tick, and while repeat
    is off it is [None]. *)
Theorem repeat_timer_is_current (s : App) :
  reachable s ->
  if _running_repeat s
  then exists t, In t (pending s) /\ t_cb t = CbRepeatTick /\
                 _repeat_timer s = Some (t_id t)
  else _repeat_timer s = None.
Proof.
  intros Hreach.
  destruct (_running_repeat s) eqn:Hon.
  - pose proof (reachable_count_ticks s Hreach) as Hc. rewrite Hon in Hc.
    destruct (counted_tick _ Hc) as (t & Ht & Hcb).
    exists t. split; [ exact Ht | ]. split; [ exact Hcb | ].
    apply (reachable_ticks_tracked s Hreach t Ht Hcb).
  - apply (reachable_handle_none s Hreach Hon).
Qed.

Lemma repeat_timer_is_current_witness :
  exists t, In t (pending repeating_app) /\ t_cb t = CbRepeatTick /\
            _repeat_timer repeating_app = Some (t_id t).
Proof.
  assert (Hreach : reachable repeating_app).
  { apply (reach_step (idle_app 24 0 "Audio")).
    - apply reach_init. reflexivity.
    - apply step_repeat_box. reflexivity. }
  apply (repeat_timer_is_current repeating_app Hreach).
Defined.

(** X12.  Unticking the Repeat box in a reachable state cancels the
    pending repeat tick and no other timer: a test or countdown already
    under way keeps its timers.  The flag goes off, the handle is dropped
    and the label is cleared. *)
Theorem untick_cancels_only_the_tick (s : App) :
  reachable s ->
  repeat_var (vars s) = true ->
  exists s',
    click_repeat s = (Return tt, s') /\
    pending s' = other_timers (pending s) /\
    _running_repeat s' = false /\
    _repeat_timer s' = None /\
    next_label s' = ""%string.
Proof.
  intros Hreach Hbox.
  destruct (reachable_repeat_inv s Hreach) as (Hrv & Hnd & _ & Htk).
  pose proof (reachable_count_ticks s Hreach) as Hc.
  rewrite Hrv, Hbox in Hc.
  destruct (counted_tick _ Hc) as (tk & Hin & Hcb).
  destruct (Htk tk Hin Hcb) as [Htr _].
  unfold click_repeat, bind, modify.
  set (s1 := set_vars (flip_repeat_var (vars s)) s).
  assert (Hoff : repeat_var (vars s1) = false) by (cbn; rewrite Hbox; reflexivity).
  destruct (toggle_repeat_off s1 Hoff) as (s2 & Hrun & Hr2 & Ht2 & Hl2 & Hp2 & _).
  rewrite Hrun. exists s2. split; [ reflexivity | ].
  split; [ | repeat split; assumption ].
  rewrite Hp2. change (_repeat_timer s1) with (_repeat_timer s).
  change (pending s1) with (pending s). rewrite Htr.
  unfold other_timers. apply filter_ext_in. intros t Ht. f_equal.
  destruct (is_tick (t_cb t)) eqn:Hx.
  - assert (Hcb' : t_cb t = CbRepeatTick)
      by (destruct (t_cb t); try discriminate Hx; reflexivity).
    destruct (Htk t Ht Hcb') as [Htr' _].
    rewrite Htr in Htr'. injection Htr' as ->. apply Nat.eqb_refl.
  - apply Nat.eqb_neq. intros Hid.
    rewrite (timer_of_id _ t tk Hnd Ht Hin Hid), Hcb in Hx. discriminate Hx.
Qed.

Lemma untick_cancels_only_the_tick_witness :
  exists s',
    click_repeat repeating_app = (Return tt, s') /\
    pending s' = [].
Proof.
  assert (Hreach : reachable repeating_app).
  { apply (reach_step (idle_app 24 0 "Audio")).
    - apply reach_init. reflexivity.
    - apply step_repeat_box. reflexivity. }
  destruct (untick_cancels_only_the_tick repeating_app Hreach eq_refl)
    as (s' & Hrun & Hp & _).
  exists s'. split; [ exact Hrun | exact Hp ].
Defined.

(** ** The wording of the delay label *)



(** ** With repeat off the loop goes idle *)

Lemma timers_weight_app (a b : list Timer) :
  timers_weight (a ++ b) = (timers_weight a + timers_weight b)%nat.
Proof.
  unfold timers_weight. rewrite map_app, list_sum_app. reflexivity.
Qed.

Lemma timers_weight_perm (a b : list Timer) :
  Permutation a b -> timers_weight a = timers_weight b.
Proof.
  intros H. unfold timers_weight.
  induction H as [ | x l l' _ IH | x y l | l l' l'' _ IH1 _ IH2 ]; simpl; lia.
Qed.

Lemma cb_weight_pos (cb : Callback) : (1 <= cb_weight cb)%nat.
Proof.
  destruct cb as [ | | | step i | ]; simpl; try lia.
  destruct i as [ | [ | [ | i ] ] ]; simpl; lia.
Qed.

Lemma timers_weight_zero (ts : list Timer) :
  timers_weight ts = 0%nat -> ts = [].
Proof.
  destruct ts as [ | t ts ]; [ reflexivity | ].
  unfold timers_weight. simpl. pose proof (cb_weight_pos (t_cb t)). lia.
Qed.

Lemma perform_test_events_weight (s : App) :
  exists ts, pending (after_test s) = pending s ++ ts /\
             (timers_weight ts <= 2)%nat.
Proof.
  enough (H : exists s', _perform_test_events s = (Return tt, s') /\
              exists ts, pending s' = pending s ++ ts /\
                         (timers_weight ts <= 2)%nat).
  { destruct H as [s' [Hrun Hq]]. unfold after_test. rewrite Hrun. exact Hq. }
  unfold _perform_test_events.
  unfold bind at 1. unfold gets at 1.
  unfold bind at 1. rewrite frames_to_ms_eq.
  unfold bind at 1. unfold gets at 1.
  set (d := py_round _). clearbody d.
  destruct s as [w [fps bf rf fr tg tf tm fm rv ri cv cs cb]
                   bg ct nl rt rr t0 nid pd tr].
  cbn [vars delay_target_var audio_delay_frames_var].
  destruct (String.eqb tg "Audio"), (Qle_bool 0 fr);
    try destruct (0 <? d);
    (eexists; split;
     [ exec; reflexivity
     | cbn [pending]; grown; unfold timers_weight; simpl; lia ]).
Qed.

Ltac run_weight :=
  eexists; split;
  [ exec; rewrite ?perform_test_events_eq; reflexivity
  | first [ cbn [pending]; grown; unfold timers_weight; simpl; lia
          | match goal with
            | |- context [after_test ?x] =>
                let ts := fresh "ts" in
                let Hp := fresh "Hp" in
                let Hw := fresh "Hw" in
                destruct (perform_test_events_weight x) as (ts & Hp & Hw);
                exists ts; split; [ exact Hp | simpl; lia ]
            end ] ].

Lemma callback_weight (cb : Callback) (s : App) :
  is_tick cb = false ->
  exists s',
    run_callback cb s = (Return tt, s') /\
    exists ts, pending s' = pending s ++ ts /\
               (timers_weight ts < cb_weight cb)%nat.
Proof.
  intros Hcb.
  destruct s as [w [fps bf rf fr tg tf tm fm rv ri cv cs cb']
                   bg ct nl rt rr t0 nid pd tr].
  destruct cb as [ | | | step i | ]; try discriminate Hcb; clear Hcb.
  - run_weight.
  - run_weight.
  - run_weight.
  - destruct i as [ | [ | [ | i ] ] ]; try destruct cb'; run_weight.
Qed.

Lemma fire_next_weight (s s' : App) :
  no_ticks (pending s) ->
  fire_next s = Some s' ->
  (timers_weight (pending s') < timers_weight (pending s))%nat.
Proof.
  intros Hn Hfire. unfold fire_next in Hfire.
  destruct (pick_earliest (pending s)) as [ [t rest] | ] eqn:E; [ | discriminate ].
  destruct (pick_earliest_In _ _ _ E) as [Ht _].
  assert (Hcb : is_tick (t_cb t) = false) by (apply (proj1 (no_ticks_In _) Hn), Ht).
  rewrite (timers_weight_perm _ _ (pick_earliest_perm _ _ _ E)).
  unfold bind, log, modify in Hfire.
  match type of Hfire with
  | context [run_callback _ ?x] =>
      destruct (callback_weight (t_cb t) x Hcb) as (s2 & Hrun & ts & Hp2 & Hw)
  end.
  rewrite Hrun in Hfire. injection Hfire as <-.
  rewrite Hp2. cbn [pending set_trace set_now set_pending].
  rewrite timers_weight_app.
  change (t :: rest) with ([t] ++ rest). rewrite timers_weight_app.
  unfold timers_weight at 3. simpl. lia.
Qed.

Lemma fire_next_some (s : App) :
  pending s <> [] -> exists s', fire_next s = Some s'.
Proof.
  intros Hp. unfold fire_next.
  destruct (pick_earliest (pending s)) as [ [u rest] | ] eqn:Hpick.
  - match goal with
    | |- context [bind ?m ?k ?x] => destruct (bind m k x) as [ [ a | e ] s2 ]
    end; eexists; reflexivity.
  - exfalso. destruct (pending s) as [ | t ts ]; [ apply Hp; reflexivity | ].
    simpl in Hpick. destruct (pick_earliest ts) as [ [? ?] | ];
      [ destruct (_ <=? _) | ]; discriminate Hpick.
Qed.

Lemma run_loop_idle_within (n : nat) (s : App) :
  _running_repeat s = false ->
  no_ticks (pending s) ->
  (timers_weight (pending s) <= n)%nat ->
  pending (run_loop n s) = [].
Proof.
  revert s. induction n as [ | n IH ]; intros s Hr Hn Hw.
  - apply timers_weight_zero. simpl. lia.
  - simpl. destruct (fire_next s) as [ s' | ] eqn:E.
    + destruct (fire_next_quiet s s' Hr Hn E) as (Hr' & Hn' & _).
      pose proof (fire_next_weight s s' Hn E).
      apply IH; [ exact Hr' | exact Hn' | lia ].
    + destruct (pending s) as [ | t ts ] eqn:Hp; [ reflexivity | ].
      exfalso.
      destruct (fire_next_some s) as [s' Hs'];
        [ rewrite Hp; discriminate | congruence ].
Qed.

(** X14.  With repeat off and no repeat tick pending, the event loop runs
    out of timers: every callback of a test starts timers that need fewer
    turns than itself (a countdown step its successor, the final step and
    a delayed flash at most a flash-off and a beep), so after at most
    [timers_weight] turns nothing is pending, the flag is still off and no
    tick was dispatched. *)
Theorem loop_goes_idle (s : App) :
  _running_repeat s = false ->
  no_ticks (pending s) ->
  pending (run_loop (timers_weight (pending s)) s) = [] /\
  _running_repeat (run_loop (timers_weight (pending s)) s) = false /\
  no_tick_events (new_trace s (run_loop (timers_weight (pending s)) s)).
Proof.
  intros Hr Hn.
  split; [ apply run_loop_idle_within; [ exact Hr | exact Hn | lia ] | ].
  destruct (run_loop_quiet (timers_weight (pending s)) s Hr Hn)
    as (Hr' & _ & es & He & Hne).
  split; [ exact Hr' | ].
  unfold new_trace. rewrite He, skipn_prefix. exact Hne.
Qed.

Lemma loop_goes_idle_witness :
  timers_weight (pending (snd (run_test (countdown_app 700 true)))) = 5%nat /\
  pending
    (run_loop (timers_weight (pending (snd (run_test (countdown_app 700 true)))))
              (snd (run_test (countdown_app 700 true)))) = [].
Proof.
  split; [ vm_compute; reflexivity | ].
  assert (Hr : _running_repeat (snd (run_test (countdown_app 700 true))) = false)
    by (vm_compute; reflexivity).
  assert (Hn : no_ticks (pending (snd (run_test (countdown_app 700 true)))))
    by (vm_compute; reflexivity).
  exact (proj1 (loop_goes_idle (snd (run_test (countdown_app 700 true))) Hr Hn)).
Defined.

(** ** Overlapping flashes *)

(** X15.  [_flash_on] never cancels the flash-off timer of an earlier
    flash: when one is pending and due before the new flash would end,
    the loop runs it first and the canvas goes back to rest at that
    earlier time, while the new flash's own flash-off is still pending. *)
Theorem pending_flash_off_cuts_flash_short (s : App) (off : Timer) :
  pending s = [off] ->
  t_cb off = CbFlashOff ->
  now s <= t_due off ->
  t_due off < now s + Z.max 0 (flash_ms_var (vars s)) ->
  exists s1 s2 later,
    _flash_on s = (Return tt, s1) /\
    flash_bg s1 = flash_bg_active /\
    fire_next s1 = Some s2 /\
    now s2 = t_due off /\
    flash_bg s2 = flash_bg_normal /\
    center_text s2 = ""%string /\
    pending s2 = [later] /\
    t_cb later = CbFlashOff /\
    t_due later = now s + Z.max 0 (flash_ms_var (vars s)).
Proof.
  intros Hp Hcb Hnow Hdue.
  destruct s as [w [fps bf rf fr tg tf tm fm rv ri cv cs cb]
                   bg ct nl rt rr t0 nid pd tr].
  destruct off as [oid ok odue ocb].
  cbn in Hp, Hcb, Hnow, Hdue. subst pd ocb.
  cbn [now vars flash_ms_var t_due].
  assert (Hle : (odue <=? t0 + Z.max 0 fm) = true) by (apply Z.leb_le; lia).
  do 3 eexists.
  split; [ exec; reflexivity | ].
  split; [ reflexivity | ].
  split.
  { unfold fire_next. cbn [pending pick_earliest t_due]. rewrite Hle.
    exec. reflexivity. }
  cbn [now flash_bg center_text pending].
  split; [ lia | ].
  repeat split.
Qed.

Lemma pending_flash_off_cuts_flash_short_witness :
  exists s1 s2,
    _flash_on (set_now 100 (after_test (idle_app 24 0 "Audio"))) = (Return tt, s1) /\
    fire_next s1 = Some s2 /\
    now s2 = 150 /\
    flash_bg s2 = flash_bg_normal.
Proof.
  destruct (pending_flash_off_cuts_flash_short
              (set_now 100 (after_test (idle_app 24 0 "Audio")))
              (mkTimer 0 TkAfter 150 CbFlashOff)
              eq_refl eq_refl)
    as (s1 & s2 & later & Hrun & _ & Hfire & Hnow & Hbg & _).
  - vm_compute. discriminate.
  - vm_compute. reflexivity.
  - exists s1, s2. repeat split; assumption.
Defined.
